(** * Takopi runners: a shallow embedding of the claude and codex runners

    Sources: [src/takopi/runners/claude.py] and [src/takopi/runners/codex.py].

    Decoded JSON lines are modelled as a [json] value tree; Python dicts
    are association lists in insertion order (objects produced by the JSON
    decoder are assumed to have distinct keys, so the first binding is the
    one Python sees).  JSON numbers are modelled as integers.

    Python exceptions are the [Raise] branch of [PyResult]; the async
    generators [_run] are state-passing computations that emit a trace of
    yielded events and lock operations and end either normally or with an
    exception. *)

From Stdlib Require Import List String Ascii ZArith Bool Lia.
Import ListNotations.
Open Scope string_scope.
Set Warnings "-register-all".

(* ------------------------------------------------------------------ *)
(** ** JSON values and the Python operations used on them *)

Inductive json : Type :=
| JNull
| JBool (b : bool)
| JInt (z : Z)
| JStr (s : string)
| JArr (items : list json)
| JObj (fields : list (string * json)).

Definition dict := list (string * json).

(** [d.get(k)]: a missing key and a JSON null are both [None]. *)
Fixpoint dlookup (d : dict) (k : string) : option json :=
  match d with
  | [] => None
  | (k', v) :: rest => if String.eqb k k' then Some v else dlookup rest k
  end.

Definition dget (d : dict) (k : string) : json :=
  match dlookup d k with Some v => v | None => JNull end.

(** [k in d] *)
Definition dmem (d : dict) (k : string) : bool :=
  match dlookup d k with Some _ => true | None => false end.

(** [d[k] = v]: an existing key keeps its position, a new key goes last. *)
Fixpoint dset (d : dict) (k : string) (v : json) : dict :=
  match d with
  | [] => [(k, v)]
  | (k', v') :: rest =>
      if String.eqb k k' then (k', v) :: rest else (k', v') :: dset rest k v
  end.

(** Python truthiness. *)
Definition truthy (j : json) : bool :=
  match j with
  | JNull => false
  | JBool b => b
  | JInt z => negb (Z.eqb z 0)
  | JStr s => negb (String.eqb s "")
  | JArr l => match l with [] => false | _ => true end
  | JObj d => match d with [] => false | _ => true end
  end.

(** [a or b] *)
Definition por (a b : json) : json := if truthy a then a else b.

(** [j == "s"] *)
Definition jeq_str (j : json) (s : string) : bool :=
  match j with JStr t => String.eqb t s | _ => false end.

(** A nonempty [str] value: [isinstance(v, str) and v]. *)
Definition nonempty_str (j : json) : option string :=
  match j with
  | JStr s => if String.eqb s "" then None else Some s
  | _ => None
  end.

(** Decimal rendering of integers, as [str(n)]. *)
Fixpoint dec_aux (fuel : nat) (n : Z) (acc : string) : string :=
  match fuel with
  | O => acc
  | S f =>
      let acc' := String (ascii_of_nat (48 + Z.to_nat (n mod 10))) acc in
      if Z.eqb (n / 10) 0 then acc' else dec_aux f (n / 10) acc'
  end.

Definition z_to_string (z : Z) : string :=
  let n := Z.abs z in
  let digits := dec_aux (S (Z.to_nat (Z.log2 n))) n "" in
  if Z.ltb z 0 then "-" ++ digits else digits.

Definition nat_to_string (n : nat) : string := z_to_string (Z.of_nat n).

Fixpoint join (sep : string) (parts : list string) : string :=
  match parts with
  | [] => ""
  | [p] => p
  | p :: rest => p ++ sep ++ join sep rest
  end.

(** [repr] and [str] of decoded values (string escapes are not modelled). *)
Fixpoint py_repr (j : json) : string :=
  match j with
  | JNull => "None"
  | JBool true => "True"
  | JBool false => "False"
  | JInt z => z_to_string z
  | JStr s => "'" ++ s ++ "'"
  | JArr l => "[" ++ join ", " (map py_repr l) ++ "]"
  | JObj d =>
      "{" ++ join ", " (map (fun kv => "'" ++ fst kv ++ "': " ++ py_repr (snd kv)) d)
      ++ "}"
  end.

Definition py_str (j : json) : string :=
  match j with JStr s => s | _ => py_repr j end.

(** [s in [...]] *)
Definition str_in (s : string) (l : list string) : bool :=
  existsb (String.eqb s) l.

(** Python's exceptions, and the error monad that threads them. *)
Inductive PyResult (A : Type) : Type :=
| Ok (a : A)
| Raise (msg : string).
Arguments Ok {A} a.
Arguments Raise {A} msg.

Definition py_bind {A B} (m : PyResult A) (k : A -> PyResult B) : PyResult B :=
  match m with Ok a => k a | Raise e => Raise e end.

Notation "x <-? m ;; k" := (py_bind m (fun x => k))
  (at level 61, m at next level, right associativity).

(** [for x in j]: lists give their items, strings their characters and
    dicts their keys; numbers, booleans and [None] are not iterable. *)
Definition py_iter (j : json) : PyResult (list json) :=
  match j with
  | JArr l => Ok l
  | JStr s => Ok (map (fun c => JStr (String c EmptyString)) (list_ascii_of_string s))
  | JObj d => Ok (map (fun kv => JStr (fst kv)) d)
  | _ => Raise "TypeError: object is not iterable"
  end.

(* ------------------------------------------------------------------ *)
(** ** The event model ([takopi.model]) *)

Record ResumeToken := mkResumeToken { engine : string; value : string }.

Definition token_eqb (a b : ResumeToken) : bool :=
  String.eqb (engine a) (engine b) && String.eqb (value a) (value b).

Inductive ActionKind := command | tool | file_change | web_search | note | warning | turn.
Inductive ActionPhase := started | updated | completed.
Inductive ActionLevel := debug | info | level_warning | error.

Record Action := mkAction {
  action_id : string;
  kind : ActionKind;
  title : string;
  detail : dict }.

Record StartedEvent := mkStarted {
  st_engine : string;
  st_resume : ResumeToken;
  st_title : string;
  st_meta : option dict }.

Record ActionEvent := mkActionEvent {
  ae_engine : string;
  ae_action : Action;
  ae_phase : ActionPhase;
  ae_ok : option bool;
  ae_message : option string;
  ae_level : option ActionLevel }.

Record CompletedEvent := mkCompleted {
  ce_engine : string;
  ce_ok : bool;
  ce_answer : string;
  ce_resume : option ResumeToken;
  ce_error : option string;
  ce_usage : option json }.

Inductive TakopiEvent :=
| EvStarted (e : StartedEvent)
| EvAction (e : ActionEvent)
| EvCompleted (e : CompletedEvent).

Definition is_completed (e : TakopiEvent) : bool :=
  match e with EvCompleted _ => true | _ => false end.

Definition is_started (e : TakopiEvent) : bool :=
  match e with EvStarted _ => true | _ => false end.

(** One line of the subprocess output, as [iter_jsonl] yields it: the raw
    text and the decoded object, or no decoded value for invalid JSON. *)
(** A line of [iter_jsonl] (in [utils], not among the sources): the
    runners read its two text forms [raw] and [line] (claude's invalid-JSON
    note reports [json_line.raw], codex's [json_line.line]) and [data], the
    decoded object or [None]. *)
Record JsonLine := mkJsonLine { raw : string; line : string; data : option dict }.

(** What a run does, in order: yield an event, or acquire or release the
    session lock of a resume token. *)
Inductive RunOutput :=
| Yield (e : TakopiEvent)
| Acquire (t : ResumeToken)
| Release (t : ResumeToken).

(** The async generator as a state-passing computation with an output trace;
    an exception keeps the trace and the state reached so far, which the
    [finally] clause of [_run] inspects. *)
Definition RunM (S A : Type) := S -> list RunOutput * S * PyResult A.

Definition ret {S A} (a : A) : RunM S A := fun s => ([], s, Ok a).

Definition bind {S A B} (m : RunM S A) (k : A -> RunM S B) : RunM S B :=
  fun s =>
    match m s with
    | (o1, s1, Ok a) => let '(o2, s2, r) := k a s1 in ((o1 ++ o2)%list, s2, r)
    | (o1, s1, Raise e) => (o1, s1, Raise e)
    end.

Notation "x <- m ;; k" := (bind m (fun x => k))
  (at level 61, m at next level, right associativity).
Notation "m ;; k" := (bind m (fun _ => k))
  (at level 61, right associativity).

Definition emit {S} (o : RunOutput) : RunM S unit := fun s => ([o], s, Ok tt).
Definition yield {S} (e : TakopiEvent) : RunM S unit := emit (Yield e).
Definition raise {S A} (msg : string) : RunM S A := fun s => ([], s, Raise msg).
Definition get {S} : RunM S S := fun s => ([], s, Ok s).
Definition put {S} (s : S) : RunM S unit := fun _ => ([], s, Ok tt).
Definition modify {S} (f : S -> S) : RunM S unit := fun s => ([], f s, Ok tt).
Definition lift {S A} (r : PyResult A) : RunM S A := fun s => ([], s, r).

(** [try: body finally: if session_lock is not None and session_lock_acquired:
    session_lock.release()] *)
Definition with_release {S} (lock_of : S -> option ResumeToken) (acquired : S -> bool)
    (m : RunM S unit) : RunM S unit :=
  fun s =>
    let '(o, s', r) := m s in
    match lock_of s' with
    | Some t => if acquired s' then ((o ++ [Release t])%list, s', r) else (o, s', r)
    | None => (o, s', r)
    end.

(* ------------------------------------------------------------------ *)
(** ** [runners/claude.py]: the stream translator *)

Module Claude.

Definition ENGINE := "claude".

Record ClaudeStreamState := mkClaudeStreamState {
  pending_actions : list (string * Action);
  last_assistant_text : option string }.

Definition empty_state := mkClaudeStreamState [] None.

(** [pending_actions[k] = a] *)
Fixpoint pending_set (p : list (string * Action)) (k : string) (a : Action)
  : list (string * Action) :=
  match p with
  | [] => [(k, a)]
  | (k', a') :: rest =>
      if String.eqb k k' then (k', a) :: rest else (k', a') :: pending_set rest k a
  end.

(** [pending_actions.pop(k, None)] *)
Fixpoint pending_pop (p : list (string * Action)) (k : string)
  : option Action * list (string * Action) :=
  match p with
  | [] => (None, [])
  | (k', a') :: rest =>
      if String.eqb k k' then (Some a', rest)
      else let (r, rest') := pending_pop rest k in (r, (k', a') :: rest')
  end.

Definition _action_event (phase : ActionPhase) (action : Action) (ok : option bool)
    (message : option string) (level : option ActionLevel) : TakopiEvent :=
  EvAction (mkActionEvent ENGINE action phase ok message level).

Definition _note_completed (action_id : string) (message : string) (ok : bool)
    (detail : dict) : TakopiEvent :=
  _action_event completed (mkAction action_id warning message detail)
    (Some ok) (Some message) (Some (if ok then info else level_warning)).

Definition _normalize_item (item : json) : option string :=
  match item with
  | JObj d => match dget d "text" with JStr t => Some t | _ => None end
  | JStr s => Some s
  | _ => None
  end.

Definition _normalize_tool_result (content : json) : string :=
  match content with
  | JArr items =>
      join (String "010" EmptyString)
        (filter (fun p => negb (String.eqb p ""))
           (flat_map (fun it => match _normalize_item it with
                                | Some p => [p] | None => [] end) items))
  | JNull => ""
  | JStr s => s
  | other => py_str other
  end.

Definition _tool_input_path (tool_input : dict) : option string :=
  match nonempty_str (dget tool_input "file_path") with
  | Some v => Some v
  | None => nonempty_str (dget tool_input "path")
  end.

Section Translator.
(** [relativize_command] and [relativize_path] come from [utils/paths.py],
    which is not part of the embedded sources: any functions will do. *)
Variable relativize_command : string -> string.
Variable relativize_path : string -> string.

Definition _tool_kind_and_title (name : string) (tool_input : dict)
  : ActionKind * string :=
  if str_in name ["Bash"; "Shell"; "KillShell"] then
    (command, relativize_command (py_str (por (dget tool_input "command") (JStr name))))
  else if str_in name ["Edit"; "Write"; "NotebookEdit"; "MultiEdit"] then
    match _tool_input_path tool_input with
    | Some path => (file_change, relativize_path path)
    | None => (file_change, name)
    end
  else if String.eqb name "Read" then
    match _tool_input_path tool_input with
    | Some path => (tool, "read: `" ++ relativize_path path ++ "`")
    | None => (tool, "read")
    end
  else if String.eqb name "Glob" then
    let pattern := dget tool_input "pattern" in
    if truthy pattern then (tool, "glob: `" ++ py_str pattern ++ "`") else (tool, "glob")
  else if String.eqb name "Grep" then
    let pattern := dget tool_input "pattern" in
    if truthy pattern then (tool, "grep: " ++ py_str pattern) else (tool, "grep")
  else if String.eqb name "WebSearch" then
    (web_search, py_str (por (dget tool_input "query") (JStr "search")))
  else if String.eqb name "WebFetch" then
    (web_search, py_str (por (dget tool_input "url") (JStr "fetch")))
  else if str_in name ["TodoWrite"; "TodoRead"] then
    (note, if String.eqb name "TodoWrite" then "update todos" else "read todos")
  else if String.eqb name "AskUserQuestion" then
    (note, "ask user")
  else if str_in name ["Task"; "Agent"] then
    let desc := por (dget tool_input "description") (dget tool_input "prompt") in
    (tool, py_str (por desc (JStr name)))
  else (tool, name).

Definition _tool_action (content : dict) (message_id : option string)
    (parent_tool_use_id : option string) : option Action :=
  match nonempty_str (dget content "id") with
  | None => None
  | Some tool_id =>
      let tool_name := py_str (por (dget content "name") (JStr "tool")) in
      let tool_input := match dget content "input" with JObj d => d | _ => [] end in
      let '(k, t) := _tool_kind_and_title tool_name tool_input in
      let detail0 := [("name", JStr tool_name); ("input", JObj tool_input)] in
      let detail1 := match message_id with
                     | Some m => if String.eqb m "" then detail0
                                 else dset detail0 "message_id" (JStr m)
                     | None => detail0 end in
      let detail2 := match parent_tool_use_id with
                     | Some p => if String.eqb p "" then detail1
                                 else dset detail1 "parent_tool_use_id" (JStr p)
                     | None => detail1 end in
      let detail3 :=
        match k with
        | file_change =>
            match _tool_input_path tool_input with
            | Some path =>
                dset detail2 "changes"
                  (JArr [JObj [("path", JStr path); ("kind", JStr "update")]])
            | None => detail2
            end
        | _ => detail2
        end in
      Some (mkAction tool_id k t detail3)
  end.


Definition _tool_result_event (content : dict) (action : Action)
    (message_id : option string) : TakopiEvent :=
  let is_error := match dget content "is_error" with JBool true => true | _ => false end in
  let normalized := _normalize_tool_result (dget content "content") in
  let d0 := detail action in
  let d1 := dset d0 "tool_use_id" (dget content "tool_use_id") in
  let d2 := dset d1 "result_preview" (JStr normalized) in
  let d3 := dset d2 "result_len" (JInt (Z.of_nat (String.length normalized))) in
  let d4 := dset d3 "is_error" (JBool is_error) in
  let d5 := match message_id with
            | Some m => if String.eqb m "" then d4 else dset d4 "message_id" (JStr m)
            | None => d4 end in
  _action_event completed
    (mkAction (action_id action) (kind action) (title action) d5)
    (Some (negb is_error)) None None.

Fixpoint _first_error_message (errors : list json) : option string :=
  match errors with
  | [] => None
  | JObj d :: rest =>
      match nonempty_str (por (dget d "message") (dget d "error")) with
      | Some m => Some m
      | None => _first_error_message rest
      end
  | JStr s :: rest => if String.eqb s "" then _first_error_message rest else Some s
  | _ :: rest => _first_error_message rest
  end.

Definition _extract_error (event : dict) : option string :=
  match nonempty_str (dget event "error") with
  | Some e => Some e
  | None =>
      match match dget event "errors" with
            | JArr l => _first_error_message l
            | _ => None end with
      | Some m => Some m
      | None => if truthy (dget event "is_error") then Some "claude run failed" else None
      end
  end.

Definition _usage_payload (event : dict) : dict :=
  fold_left
    (fun usage key =>
       match dget event key with JNull => usage | v => dset usage key v end)
    ["total_cost_usd"; "duration_ms"; "duration_api_ms"; "num_turns"; "usage"; "modelUsage"]
    [].

Definition py_str_opt (j : json) : option string :=
  match j with JStr s => Some s | _ => None end.

Definition _assistant_block (message_id parent : option string)
    (acc : list TakopiEvent * ClaudeStreamState) (content : json)
  : list TakopiEvent * ClaudeStreamState :=
  let '(out, st) := acc in
  match content with
  | JObj c =>
      let ctype := dget c "type" in
      if jeq_str ctype "tool_use" then
        match _tool_action c message_id parent with
        | None => (out, st)
        | Some a =>
            (out ++ [_action_event started a None None None],
             mkClaudeStreamState (pending_set (pending_actions st) (action_id a) a)
               (last_assistant_text st))%list
        end
      else if jeq_str ctype "text" then
        match nonempty_str (dget c "text") with
        | Some t => (out, mkClaudeStreamState (pending_actions st) (Some t))
        | None => (out, st)
        end
      else (out, st)
  | _ => (out, st)
  end.

Definition _user_block (message_id : option string)
    (acc : list TakopiEvent * ClaudeStreamState) (content : json)
  : list TakopiEvent * ClaudeStreamState :=
  let '(out, st) := acc in
  match content with
  | JObj c =>
      if negb (jeq_str (dget c "type") "tool_result") then (out, st) else
      match nonempty_str (dget c "tool_use_id") with
      | None => (out, st)
      | Some tool_use_id =>
          let '(popped, pending') := pending_pop (pending_actions st) tool_use_id in
          let action := match popped with
                        | Some a => a
                        | None => mkAction tool_use_id tool "tool result" []
                        end in
          (out ++ [_tool_result_event c action message_id],
           mkClaudeStreamState pending' (last_assistant_text st))%list
      end
  | _ => (out, st)
  end.

Definition _permission_denial (idx : nat) (denial : json) : list TakopiEvent :=
  match denial with
  | JObj d =>
      let denial_title := match nonempty_str (dget d "tool_name") with
                          | Some n => "permission denied: " ++ n
                          | None => "permission denied" end in
      let action_id := match nonempty_str (dget d "tool_use_id") with
                       | Some t => "claude.permission." ++ t
                       | None => "claude.permission." ++ nat_to_string idx end in
      [_action_event completed (mkAction action_id warning denial_title d)
         (Some false) None (Some level_warning)]
  | _ => []
  end.

Fixpoint _permission_denials (idx : nat) (denials : list json) : list TakopiEvent :=
  match denials with
  | [] => []
  | d :: rest => (_permission_denial idx d ++ _permission_denials (S idx) rest)%list
  end.

Definition _result_completed (event : dict) (st : ClaudeStreamState) : TakopiEvent :=
  let ok := negb (truthy (dget event "is_error")) in
  let result_text0 := match dget event "result" with JStr s => s | _ => "" end in
  let result_text :=
    match last_assistant_text st with
    | Some t =>
        if ok && String.eqb result_text0 "" && negb (String.eqb t "") then t
        else result_text0
    | None => result_text0
    end in
  let resume_value := dget event "session_id" in
  let resume := if truthy resume_value
                then Some (mkResumeToken ENGINE (py_str resume_value)) else None in
  let err := if ok then None else _extract_error event in
  let usage := _usage_payload event in
  EvCompleted (mkCompleted ENGINE ok result_text resume err
                 (match usage with [] => None | _ => Some (JObj usage) end)).

(** [translate_claude_event]; the mutated [ClaudeStreamState] is returned. *)
Definition translate_claude_event (event : dict) (title : string)
    (state : ClaudeStreamState) : PyResult (list TakopiEvent * ClaudeStreamState) :=
  let etype := dget event "type" in
  if jeq_str etype "system" && jeq_str (dget event "subtype") "init" then
    let session_id := dget event "session_id" in
    if negb (truthy session_id) then Ok ([], state) else
    let model := dget event "model" in
    let event_title := if truthy model then py_str model else title in
    let meta0 :=
      fold_left (fun meta key =>
                   if dmem event key then dset meta key (dget event key) else meta)
        ["cwd"; "tools"; "permissionMode"; "output_style"; "apiKeySource"] [] in
    let meta := if dmem event "mcp_servers"
                then dset meta0 "mcp_servers" (dget event "mcp_servers") else meta0 in
    Ok ([EvStarted (mkStarted ENGINE (mkResumeToken ENGINE (py_str session_id))
                      event_title (match meta with [] => None | _ => Some meta end))],
        state)
  else if jeq_str etype "assistant" then
    match dget event "message" with
    | JObj message =>
        let message_id := py_str_opt (dget message "id") in
        let parent := py_str_opt (dget event "parent_tool_use_id") in
        match dget message "content" with
        | JArr blocks => Ok (fold_left (_assistant_block message_id parent) blocks ([], state))
        | _ => Ok ([], state)
        end
    | _ => Ok ([], state)
    end
  else if jeq_str etype "user" then
    match dget event "message" with
    | JObj message =>
        let message_id := py_str_opt (dget message "id") in
        match dget message "content" with
        | JArr blocks => Ok (fold_left (_user_block message_id) blocks ([], state))
        | _ => Ok ([], state)
        end
    | _ => Ok ([], state)
    end
  else if jeq_str etype "result" then
    denials <-? py_iter (por (dget event "permission_denials") (JArr [])) ;;
    Ok ((_permission_denials 0 denials ++ [_result_completed event state])%list, state)
  else Ok ([], state).

End Translator.

(** *** [ClaudeRunner.format_resume] *)
Definition format_resume (token : ResumeToken) : PyResult string :=
  if negb (String.eqb (engine token) ENGINE)
  then Raise ("RuntimeError: resume token is for engine " ++ py_repr (JStr (engine token)))
  else Ok ("`claude --resume " ++ value token ++ "`").

(** *** [_RESUME_RE]
    [(?im)^\s*`?claude\s+(?:--resume|-r)\s+(?P<token>[^`\s]+)`?\s*$]

    The matcher below follows the pattern piece by piece.  No piece needs
    backtracking: each greedy run ([\s*], [\s+], the token) is followed by a
    piece that cannot start with a character of the run, so a shorter run
    can never succeed where the longest one fails. *)

(** Python's [\s] on the code points 0..255 ([str.isspace]). *)
Definition is_space (c : ascii) : bool :=
  let n := nat_of_ascii c in
  (Nat.leb 9 n && Nat.leb n 13) || (Nat.leb 28 n && Nat.leb n 32) || Nat.eqb n 133
  || Nat.eqb n 160.

Definition lower (c : ascii) : ascii :=
  let n := nat_of_ascii c in
  if Nat.leb 65 n && Nat.leb n 90 then ascii_of_nat (n + 32) else c.

Definition backtick : ascii := "`"%char.
Definition newline : ascii := "010"%char.

Fixpoint skip_ws (l : list ascii) : list ascii :=
  match l with
  | c :: r => if is_space c then skip_ws r else l
  | [] => []
  end.

(** [\s+] *)
Definition skip_ws1 (l : list ascii) : option (list ascii) :=
  match l with
  | c :: r => if is_space c then Some (skip_ws r) else None
  | [] => None
  end.

(** A literal under [IGNORECASE]. *)
Fixpoint match_ci (lit : list ascii) (l : list ascii) : option (list ascii) :=
  match lit, l with
  | [], _ => Some l
  | a :: lit', c :: l' =>
      if Ascii.eqb (lower a) (lower c) then match_ci lit' l' else None
  | _ :: _, [] => None
  end.

(** [[^`\s]+], greedy *)
Fixpoint span_token (l : list ascii) : list ascii * list ascii :=
  match l with
  | c :: r =>
      if Ascii.eqb c backtick || is_space c then ([], l)
      else let '(t, rest) := span_token r in (c :: t, rest)
  | [] => ([], [])
  end.

(** [\s*$] under [MULTILINE]: [$] holds at the end or before a newline. *)
Fixpoint ws_eol (l : list ascii) : bool :=
  match l with
  | [] => true
  | c :: r => if Ascii.eqb c newline then true else if is_space c then ws_eol r else false
  end.

Definition opt_bind {A B} (o : option A) (k : A -> option B) : option B :=
  match o with Some a => k a | None => None end.

(** The pattern anchored at a line start; returns the [token] group. *)
Definition resume_match_at (l : list ascii) : option string :=
  let l1 := skip_ws l in
  let l2 := match l1 with c :: r => if Ascii.eqb c backtick then r else l1 | [] => l1 end in
  opt_bind (match_ci (list_ascii_of_string "claude") l2) (fun l3 =>
  opt_bind (skip_ws1 l3) (fun l4 =>
  opt_bind (match match_ci (list_ascii_of_string "--resume") l4 with
            | Some l5 => Some l5
            | None => match_ci (list_ascii_of_string "-r") l4
            end) (fun l5 =>
  opt_bind (skip_ws1 l5) (fun l6 =>
  let '(tok, l7) := span_token l6 in
  match tok with
  | [] => None
  | _ =>
      let tail_ok := match l7 with
                     | c :: r => if Ascii.eqb c backtick then ws_eol r else false
                     | [] => false
                     end || ws_eol l7 in
      if tail_ok then Some (string_of_list_ascii tok) else None
  end)))).

(** [_RESUME_RE.search(text)]: the leftmost match; under [MULTILINE] a match
    can only start at position 0 or just after a newline. *)
Fixpoint resume_search (line_start : bool) (l : list ascii) : option string :=
  match (if line_start then resume_match_at l else None) with
  | Some t => Some t
  | None =>
      match l with
      | [] => None
      | c :: r => resume_search (Ascii.eqb c newline) r
      end
  end.

(** Modelled from the spec: [ResumeTokenMixin.extract_resume] (in
    [takopi/runner.py], not among the sources) parses the backend's resume
    text back out of free text with the backend's pattern [resume_re]:
    the token of the match, as a resume token of the runner's engine, or
    no token when the pattern does not match. *)
Definition extract_resume (text : string) : option ResumeToken :=
  match resume_search true (list_ascii_of_string text) with
  | Some tok => Some (mkResumeToken ENGINE tok)
  | None => None
  end.

(** *** [ClaudeRunner._run] *)

Record RunState := mkRunState {
  session_lock : option ResumeToken;
  session_lock_acquired : bool;
  did_emit_completed : bool;
  note_seq : nat;
  state : ClaudeStreamState;
  found_session : option ResumeToken }.

Definition init_run_state :=
  mkRunState None false false 0 empty_state None.

Definition next_note_id : RunM RunState string :=
  s <- get ;;
  let n := S (note_seq s) in
  put (mkRunState (session_lock s) (session_lock_acquired s) (did_emit_completed s)
         n (state s) (found_session s)) ;;
  ret ("claude.note." ++ nat_to_string n).

Definition set_stream_state (st : ClaudeStreamState) (s : RunState) : RunState :=
  mkRunState (session_lock s) (session_lock_acquired s) (did_emit_completed s)
    (note_seq s) st (found_session s).

Definition set_lock (t : ResumeToken) (s : RunState) : RunState :=
  mkRunState (Some t) true (did_emit_completed s) (note_seq s) (state s) (found_session s).

Definition set_found (t : ResumeToken) (s : RunState) : RunState :=
  mkRunState (session_lock s) (session_lock_acquired s) (did_emit_completed s)
    (note_seq s) (state s) (Some t).

Definition set_completed (s : RunState) : RunState :=
  mkRunState (session_lock s) (session_lock_acquired s) true
    (note_seq s) (state s) (found_session s).

(** The [for out_evt in translate_claude_event(...)] loop. *)
Fixpoint emit_translated (expected_session : option ResumeToken)
    (outs : list TakopiEvent) : RunM RunState unit :=
  match outs with
  | [] => ret tt
  | EvStarted se :: rest =>
      let session := st_resume se in
      if negb (String.eqb (engine session) ENGINE) then
        raise "RuntimeError: claude emitted session token for wrong engine"
      else if match expected_session with
              | Some e => negb (token_eqb session e)
              | None => false end then
        raise "RuntimeError: claude emitted a different session id than expected"
      else
        (match expected_session with
         | None => emit (Acquire session) ;; modify (set_lock session)
         | Some _ => ret tt
         end) ;;
        modify (set_found session) ;;
        yield (EvStarted se) ;;
        emit_translated expected_session rest
  | out_evt :: rest =>
      yield out_evt ;;
      if is_completed out_evt then modify set_completed
      else emit_translated expected_session rest
  end.

Section Run.
Variable relativize_command : string -> string.
Variable relativize_path : string -> string.
Variable session_title : string.

(** The [async for json_line in iter_jsonl(...)] loop. *)
Fixpoint stream_loop (expected_session : option ResumeToken)
    (lines : list JsonLine) : RunM RunState unit :=
  match lines with
  | [] => ret tt
  | json_line :: rest =>
      s <- get ;;
      if did_emit_completed s then stream_loop expected_session rest else
      match data json_line with
      | None =>
          nid <- next_note_id ;;
          yield (_note_completed nid "invalid JSON from claude; ignoring line" false
                   [("line", JStr (raw json_line))]) ;;
          stream_loop expected_session rest
      | Some evt =>
          r <- lift (translate_claude_event relativize_command relativize_path
                       evt session_title (state s)) ;;
          modify (set_stream_state (snd r)) ;;
          emit_translated expected_session (fst r) ;;
          stream_loop expected_session rest
      end
  end.

(** After [rc = await proc.wait()]. *)
Definition after_exit (resume_token : option ResumeToken) (rc : Z)
    (stderr_text : string) : RunM RunState unit :=
  s <- get ;;
  if did_emit_completed s then ret tt
  else if negb (Z.eqb rc 0) then
    let message := "claude failed (rc=" ++ z_to_string rc ++ ")." in
    nid <- next_note_id ;;
    yield (_note_completed nid message false [("stderr_tail", JStr stderr_text)]) ;;
    let resume_for_completed :=
      match found_session s with Some f => Some f | None => resume_token end in
    yield (EvCompleted (mkCompleted ENGINE false "" resume_for_completed (Some message) None))
  else
    match found_session s with
    | None =>
        yield (EvCompleted (mkCompleted ENGINE false "" resume_token
                 (Some "claude finished but no session_id was captured") None))
    | Some f =>
        yield (EvCompleted (mkCompleted ENGINE false
                 (match last_assistant_text (state s) with Some t => t | None => "" end)
                 (Some f) (Some "claude finished without a result event") None))
    end.

(** [ClaudeRunner._run(prompt, resume_token)] over the decoded stdout lines,
    the exit code and the joined stderr tail. *)
Definition _run (resume_token : option ResumeToken) (lines : list JsonLine)
    (rc : Z) (stderr_text : string) : list RunOutput * RunState * PyResult unit :=
  with_release session_lock session_lock_acquired
    (stream_loop resume_token lines ;; after_exit resume_token rc stderr_text)
    init_run_state.

End Run.

(** *** Command line *)

(** [_coerce_comma_list(value)]: [None] stays [None]; a list is rendered
    item by item with [str], dropping [None] items and empty renderings,
    and joined with commas; any other value is rendered with [str]; an
    empty result is [None]. *)
Definition _coerce_comma_list (value : json) : option string :=
  match value with
  | JNull => None
  | JArr items =>
      let parts := map py_str (filter (fun it => match it with JNull => false | _ => true end)
                                      items) in
      let joined := join "," (filter (fun p => negb (String.eqb p "")) parts) in
      if String.eqb joined "" then None else Some joined
  | v => let text := py_str v in if String.eqb text "" then None else Some text
  end.

(** The fields of the [ClaudeRunner] dataclass that the command line and
    the run read; [model] and [allowed_tools] keep the configured value,
    [JNull] standing for [None]. *)
Record ClaudeRunner := mkClaudeRunner {
  claude_cmd : string;
  model : json;
  allowed_tools : json;
  dangerously_skip_permissions : bool;
  use_api_billing : bool;
  runner_session_title : string }.

Definition _build_args (self : ClaudeRunner) (prompt : string)
    (resume : option ResumeToken) : list string :=
  ["-p"; "--output-format"; "stream-json"; "--verbose"]
  ++ match resume with Some t => ["--resume"; value t] | None => [] end
  ++ match model self with JNull => [] | m => ["--model"; py_str m] end
  ++ match _coerce_comma_list (allowed_tools self) with
     | Some a => ["--allowedTools"; a] | None => [] end
  ++ (if dangerously_skip_permissions self then ["--dangerously-skip-permissions"] else [])
  ++ ["--"; prompt].

(** [args = [self.claude_cmd]; args.extend(self._build_args(prompt, resume_token))]
    in [_run]. *)
Definition run_args (self : ClaudeRunner) (prompt : string) (resume : option ResumeToken)
  : list string :=
  self.(claude_cmd) :: _build_args self prompt resume.

(** [build_runner(config, _config_path)]. *)
Definition build_runner (config : dict) : ClaudeRunner :=
  let m := dget config "model" in
  mkClaudeRunner "claude" m (dget config "allowed_tools")
    (match dget config "dangerously_skip_permissions" with JBool true => true | _ => false end)
    (match dget config "use_api_billing" with JBool true => true | _ => false end)
    (match m with JNull => "claude" | _ => py_str m end).

End Claude.

(* ------------------------------------------------------------------ *)
(** ** [runners/codex.py] *)

Module Codex.

Definition ENGINE := "codex".

Definition _ACTION_KIND_MAP (item_type : string) : option ActionKind :=
  if String.eqb item_type "command_execution" then Some command
  else if String.eqb item_type "mcp_tool_call" then Some tool
  else if String.eqb item_type "tool_call" then Some tool
  else if String.eqb item_type "web_search" then Some web_search
  else if String.eqb item_type "file_change" then Some file_change
  else if String.eqb item_type "reasoning" then Some note
  else if String.eqb item_type "todo_list" then Some note
  else None.

Definition _started_event (token : ResumeToken) (title : string) : TakopiEvent :=
  EvStarted (mkStarted (engine token) token title None).

Definition _completed_event (resume : option ResumeToken) (ok : bool) (answer : string)
    (err : option string) (usage : option json) : TakopiEvent :=
  EvCompleted (mkCompleted ENGINE ok answer resume err usage).

Definition _action_event (phase : ActionPhase) (action_id : string) (k : ActionKind)
    (title : string) (detail : dict) (ok : option bool) (message : option string)
    (level : option ActionLevel) : TakopiEvent :=
  EvAction (mkActionEvent ENGINE (mkAction action_id k title detail) phase ok message level).

Definition _note_completed (action_id : string) (message : string) (ok : bool)
    (detail : dict) : TakopiEvent :=
  _action_event completed action_id warning message detail (Some ok) (Some message)
    (Some (if ok then info else level_warning)).

(** [".".join(part for part in (server, tool) if part) or "tool"]; a truthy
    part that is not a string makes [join] raise. *)
Definition _short_tool_name (item : dict) : PyResult string :=
  let parts := filter truthy [dget item "server"; dget item "tool"] in
  if forallb (fun p => match p with JStr _ => true | _ => false end) parts then
    let name := join "." (map py_str parts) in
    Ok (if String.eqb name "" then "tool" else name)
  else Raise "TypeError: sequence item: expected str instance".

Definition _summarize_tool_result (result : json) : option dict :=
  match result with
  | JObj r =>
      let s0 := match dget r "content" with
                | JArr l => [("content_blocks", JInt (Z.of_nat (List.length l)))]
                | JNull => []
                | _ => [("content_blocks", JInt 1)]
                end in
      let structured_key :=
        if dmem r "structured_content" then Some "structured_content"
        else if dmem r "structured" then Some "structured" else None in
      let s1 := match structured_key with
                | Some k => dset s0 "has_structured"
                              (JBool (match dget r k with JNull => false | _ => true end))
                | None => s0 end in
      match s1 with [] => None | _ => Some s1 end
  | _ => None
  end.

Fixpoint _change_paths (changes : list json) : PyResult (list json) :=
  match changes with
  | [] => Ok []
  | JObj c :: rest =>
      ps <-? _change_paths rest ;;
      let p := dget c "path" in Ok (if truthy p then p :: ps else ps)
  | _ :: _ => Raise "AttributeError: object has no attribute 'get'"
  end.

Definition _format_change_summary (item : dict) : PyResult string :=
  changes <-? py_iter (por (dget item "changes") (JArr [])) ;;
  paths <-? _change_paths changes ;;
  match paths with
  | [] =>
      let total := List.length changes in
      Ok (match total with O => "files" | _ => nat_to_string total ++ " files" end)
  | _ => Ok (join ", " (map py_str paths))
  end.

Record _TodoSummary := mkTodoSummary { done : nat; total : nat; next_text : option string }.

Definition _todo_step (acc : _TodoSummary) (raw_item : json) : _TodoSummary :=
  match raw_item with
  | JObj it =>
      let tot := S (total acc) in
      if match dget it "completed" with JBool true => true | _ => false end
      then mkTodoSummary (S (done acc)) tot (next_text acc)
      else match next_text acc with
           | None =>
               mkTodoSummary (done acc) tot
                 (match dget it "text" with JNull => None | t => Some (py_str t) end)
           | Some _ => mkTodoSummary (done acc) tot (next_text acc)
           end
  | _ => acc
  end.

Definition _summarize_todo_list (items : json) : _TodoSummary :=
  match items with
  | JArr l => fold_left _todo_step l (mkTodoSummary 0 0 None)
  | _ => mkTodoSummary 0 0 None
  end.

Definition _todo_title (summary : _TodoSummary) : string :=
  match total summary with
  | O => "todo"
  | _ =>
      let counts := "todo " ++ nat_to_string (done summary) ++ "/"
                    ++ nat_to_string (total summary) ++ ": " in
      match next_text summary with
      | Some t => if String.eqb t "" then counts ++ "done" else counts ++ t
      | None => counts ++ "done"
      end
  end.

(** [etype.split(".")[-1]] for the three item event types. *)
Definition phase_of (etype : string) : ActionPhase :=
  if String.eqb etype "item.started" then started
  else if String.eqb etype "item.updated" then updated
  else completed.

Definition is_failed (status : json) : bool := jeq_str status "failed".

Definition with_arguments (item : dict) (d : dict) : dict :=
  if dmem item "arguments" then dset d "arguments" (dget item "arguments") else d.

Section Translator.
Variable relativize_command : string -> string.

Definition _translate_item_event (etype : string) (item : dict)
  : PyResult (list TakopiEvent) :=
  let item_type0 := por (dget item "type") (dget item "item_type") in
  let item_type :=
    if jeq_str item_type0 "assistant_message" then JStr "agent_message" else item_type0 in
  if negb (truthy item_type) then Ok [] else
  if jeq_str item_type "agent_message" then Ok [] else
  match nonempty_str (dget item "id") with
  | None => Ok []
  | Some action_id =>
  let phase := phase_of etype in
  if jeq_str item_type "error" then
    match phase with
    | completed =>
        let message := py_str (por (dget item "message") (JStr "codex item error")) in
        Ok [_action_event completed action_id warning message [("message", JStr message)]
              (Some false) (Some message) (Some level_warning)]
    | _ => Ok []
    end
  else
  (* [_ACTION_KIND_MAP.get(item_type)]: a list or dict key is unhashable *)
  k <-? match item_type with
        | JStr t => Ok (_ACTION_KIND_MAP t)
        | JArr _ | JObj _ => Raise "TypeError: unhashable type"
        | _ => Ok None
        end ;;
  match k with
  | None => Ok []
  | Some command =>
      let title := relativize_command (py_str (por (dget item "command") (JStr ""))) in
      match phase with
      | completed =>
          let exit_code := dget item "exit_code" in
          let ok0 := negb (is_failed (dget item "status")) in
          let ok := match exit_code with
                    | JInt z => ok0 && Z.eqb z 0
                    | JBool b => ok0 && negb b
                    | _ => ok0 end in
          Ok [_action_event completed action_id command title
                [("exit_code", exit_code); ("status", dget item "status")]
                (Some ok) None None]
      | ph => Ok [_action_event ph action_id command title [] None None None]
      end
  | Some tool =>
      short <-? _short_tool_name item ;;
      let '(title, detail) :=
        if jeq_str item_type "tool_call" then
          let name := dget item "name" in
          (if truthy name then py_str name else "tool",
           with_arguments item [("name", name); ("status", dget item "status")])
        else
          (short, with_arguments item [("server", dget item "server");
                                       ("tool", dget item "tool");
                                       ("status", dget item "status")]) in
      match phase with
      | completed =>
          let err := dget item "error" in
          let ok := negb (is_failed (dget item "status")) && negb (truthy err) in
          let d1 := if truthy err
                    then dset detail "error_message"
                           (JStr (py_str (match err with JObj e => dget e "message"
                                                        | _ => err end)))
                    else detail in
          let d2 := match _summarize_tool_result (dget item "result") with
                    | Some summary => dset d1 "result_summary" (JObj summary)
                    | None => d1 end in
          Ok [_action_event completed action_id tool title d2 (Some ok) None None]
      | ph => Ok [_action_event ph action_id tool title detail None None None]
      end
  | Some web_search =>
      let title := py_str (por (dget item "query") (JStr "")) in
      let detail := [("query", dget item "query")] in
      match phase with
      | completed => Ok [_action_event completed action_id web_search title detail
                           (Some true) None None]
      | ph => Ok [_action_event ph action_id web_search title detail None None None]
      end
  | Some file_change =>
      match phase with
      | completed =>
          title <-? _format_change_summary item ;;
          let detail := [("changes", por (dget item "changes") (JArr []));
                         ("status", dget item "status"); ("error", dget item "error")] in
          Ok [_action_event completed action_id file_change title detail
                (Some (negb (is_failed (dget item "status")))) None None]
      | _ => Ok []
      end
  | Some note =>
      let '(title, detail) :=
        if jeq_str item_type "todo_list" then
          let summary := _summarize_todo_list (dget item "items") in
          (_todo_title summary, [("done", JInt (Z.of_nat (done summary)));
                                 ("total", JInt (Z.of_nat (total summary)))])
        else (py_str (por (dget item "text") (JStr "")), []) in
      match phase with
      | completed => Ok [_action_event completed action_id note title detail
                           (Some true) None None]
      | ph => Ok [_action_event ph action_id note title detail None None None]
      end
  | Some _ => Ok []
  end
  end.

(** [item = event.get("item") or {}]; a truthy non-dict item makes
    [item.get] raise. *)
Definition as_item (j : json) : PyResult dict :=
  match por j (JObj []) with
  | JObj d => Ok d
  | _ => Raise "AttributeError: object has no attribute 'get'"
  end.

Definition translate_codex_event (event : dict) (title : string)
  : PyResult (list TakopiEvent) :=
  let etype := dget event "type" in
  if jeq_str etype "thread.started" then
    let thread_id := dget event "thread_id" in
    if truthy thread_id
    then Ok [_started_event (mkResumeToken ENGINE (py_str thread_id)) title]
    else Ok []
  else
    match etype with
    | JStr e =>
        if str_in e ["item.started"; "item.updated"; "item.completed"] then
          item <-? as_item (dget event "item") ;;
          _translate_item_event e item
        else Ok []
    (* [etype in {...}]: a list or dict is unhashable *)
    | JArr _ | JObj _ => Raise "TypeError: unhashable type"
    | _ => Ok []
    end.

End Translator.

(** *** [CodexRunner._run] *)

Record RunState := mkRunState {
  session_lock : option ResumeToken;
  session_lock_acquired : bool;
  found_session : option ResumeToken;
  final_answer : option string;
  note_seq : nat;
  did_emit_completed : bool;
  turn_index : nat }.

Definition init_run_state := mkRunState None false None None 0 false 0.

Definition next_note_id : RunM RunState string :=
  s <- get ;;
  let n := S (note_seq s) in
  put (mkRunState (session_lock s) (session_lock_acquired s) (found_session s)
         (final_answer s) n (did_emit_completed s) (turn_index s)) ;;
  ret ("codex.note." ++ nat_to_string n).

Definition set_completed (s : RunState) : RunState :=
  mkRunState (session_lock s) (session_lock_acquired s) (found_session s)
    (final_answer s) (note_seq s) true (turn_index s).

Definition bump_turn (s : RunState) : RunState :=
  mkRunState (session_lock s) (session_lock_acquired s) (found_session s)
    (final_answer s) (note_seq s) (did_emit_completed s) (S (turn_index s)).

Definition set_final_answer (a : string) (s : RunState) : RunState :=
  mkRunState (session_lock s) (session_lock_acquired s) (found_session s)
    (Some a) (note_seq s) (did_emit_completed s) (turn_index s).

Definition set_lock (t : ResumeToken) (s : RunState) : RunState :=
  mkRunState (Some t) true (found_session s)
    (final_answer s) (note_seq s) (did_emit_completed s) (turn_index s).

Definition set_found (t : ResumeToken) (s : RunState) : RunState :=
  mkRunState (session_lock s) (session_lock_acquired s) (Some t)
    (final_answer s) (note_seq s) (did_emit_completed s) (turn_index s).

Definition answer_of (s : RunState) : string :=
  match final_answer s with Some a => a | None => "" end.

Definition resume_for (resume_token : option ResumeToken) (s : RunState)
  : option ResumeToken :=
  match found_session s with Some f => Some f | None => resume_token end.

(** [fatal = fatal_flag is True or fatal_flag is None] *)
Definition is_fatal (fatal_flag : json) : bool :=
  match fatal_flag with JBool true | JNull => true | _ => false end.

(** The [for out_evt in translate_codex_event(...)] loop. *)
Fixpoint emit_translated (expected_session : option ResumeToken)
    (outs : list TakopiEvent) : RunM RunState unit :=
  match outs with
  | [] => ret tt
  | EvStarted se :: rest =>
      let session := st_resume se in
      s <- get ;;
      match found_session s with
      | None =>
          if negb (String.eqb (engine session) ENGINE) then
            raise ("RuntimeError: codex emitted session token for engine "
                   ++ py_repr (JStr (engine session)))
          else if match expected_session with
                  | Some e => negb (token_eqb session e)
                  | None => false end then
            raise "RuntimeError: codex emitted a different session id than expected"
          else
            (match expected_session with
             | None => emit (Acquire session) ;; modify (set_lock session)
             | Some _ => ret tt
             end) ;;
            modify (set_found session) ;;
            yield (EvStarted se) ;;
            emit_translated expected_session rest
      | Some _ => emit_translated expected_session rest
      end
  | out_evt :: rest => yield out_evt ;; emit_translated expected_session rest
  end.

(** [final_answer] bookkeeping for [item.completed] agent messages. *)
Definition track_answer (evt : dict) : RunM RunState unit :=
  if jeq_str (dget evt "type") "item.completed" then
    item <- lift (as_item (dget evt "item")) ;;
    let item_type0 := por (dget item "type") (dget item "item_type") in
    let item_type :=
      if jeq_str item_type0 "assistant_message" then JStr "agent_message" else item_type0 in
    match jeq_str item_type "agent_message", dget item "text" with
    | true, JStr text => modify (set_final_answer text)
    | _, _ => ret tt
    end
  else ret tt.

Section Run.
Variable relativize_command : string -> string.
Variable session_title : string.

(** The body of the [async for json_line in iter_jsonl(...)] loop for one
    decoded event, when no [CompletedEvent] has been emitted yet. *)
Definition handle_event (resume_token : option ResumeToken) (evt : dict)
  : RunM RunState unit :=
  let etype := dget evt "type" in
  s <- get ;;
  if jeq_str etype "error" then
    let message := py_str (por (dget evt "message") (JStr "codex error")) in
    if is_fatal (dget evt "fatal") then
      yield (_completed_event (resume_for resume_token s) false (answer_of s)
               (Some message) None) ;;
      modify set_completed
    else
      nid <- next_note_id ;;
      yield (_note_completed nid message false
               [("code", dget evt "code"); ("fatal", dget evt "fatal")])
  else if jeq_str etype "turn.failed" then
    err <- lift (as_item (dget evt "error")) ;;
    let message := py_str (por (dget err "message") (JStr "codex turn failed")) in
    yield (_completed_event (resume_for resume_token s) false (answer_of s)
             (Some message) None) ;;
    modify set_completed
  else if jeq_str etype "turn.rate_limited" then
    let message := match dget evt "retry_after_ms" with
                   | (JInt _ | JBool _) as retry_ms =>
                       "rate limited (retry after " ++ py_str retry_ms ++ "ms)"
                   | _ => "rate limited" end in
    nid <- next_note_id ;;
    yield (_note_completed nid message false [])
  else if jeq_str etype "turn.started" then
    let action_id := "turn_" ++ nat_to_string (turn_index s) in
    modify bump_turn ;;
    yield (_action_event started action_id turn "turn started" [] None None None)
  else if jeq_str etype "turn.completed" then
    yield (_completed_event (resume_for resume_token s) true (answer_of s) None
             (match dget evt "usage" with JNull => None | u => Some u end)) ;;
    modify set_completed
  else
    track_answer evt ;;
    outs <- lift (translate_codex_event relativize_command evt session_title) ;;
    emit_translated resume_token outs.

Fixpoint stream_loop (resume_token : option ResumeToken) (lines : list JsonLine)
  : RunM RunState unit :=
  match lines with
  | [] => ret tt
  | json_line :: rest =>
      s <- get ;;
      if did_emit_completed s then stream_loop resume_token rest else
      match data json_line with
      | None =>
          nid <- next_note_id ;;
          yield (_note_completed nid "invalid JSON from codex; ignoring line" false
                   [("line", JStr (line json_line))]) ;;
          stream_loop resume_token rest
      | Some evt => handle_event resume_token evt ;; stream_loop resume_token rest
      end
  end.

Definition after_exit (resume_token : option ResumeToken) (rc : Z)
    (stderr_text : string) : RunM RunState unit :=
  s <- get ;;
  if did_emit_completed s then ret tt
  else if negb (Z.eqb rc 0) then
    let message := "codex exec failed (rc=" ++ z_to_string rc ++ ")." in
    nid <- next_note_id ;;
    yield (_note_completed nid message false [("stderr_tail", JStr stderr_text)]) ;;
    s' <- get ;;
    yield (_completed_event (resume_for resume_token s') false (answer_of s')
             (Some message) None)
  else
    match found_session s with
    | None =>
        yield (_completed_event resume_token false (answer_of s)
                 (Some "codex exec finished but no session_id/thread_id was captured") None)
    | Some f => yield (_completed_event (Some f) true (answer_of s) None None)
    end.

(** [CodexRunner._run(prompt, resume_token)] over the decoded stdout lines,
    the exit code and the joined stderr tail. *)
Definition _run (resume_token : option ResumeToken) (lines : list JsonLine)
    (rc : Z) (stderr_text : string) : list RunOutput * RunState * PyResult unit :=
  with_release session_lock session_lock_acquired
    (stream_loop resume_token lines ;; after_exit resume_token rc stderr_text)
    init_run_state.

End Run.

(** *** Command line and configuration *)

(** The attributes [CodexRunner.__init__] sets. *)
Record CodexRunner := mkCodexRunner {
  codex_cmd : string;
  extra_args : list string;
  runner_session_title : string }.

(** The [args] list [_run] spawns: [[codex_cmd, *extra_args, "exec",
    "--json"]] followed by [["resume", value, "-"]] or [["-"]]. *)
Definition exec_args (self : CodexRunner) (resume_token : option ResumeToken)
  : list string :=
  [codex_cmd self] ++ extra_args self ++ ["exec"; "--json"]
  ++ match resume_token with Some t => ["resume"; value t; "-"] | None => ["-"] end.

Definition is_str (j : json) : bool := match j with JStr _ => true | _ => false end.

(** [build_runner(config, config_path)], with [shutil.which("codex")]
    given as [which]; a [ConfigError] is a [Raise] (messages shortened). *)
Definition build_runner (which : option string) (config : dict) (config_path : string)
  : PyResult CodexRunner :=
  match which with
  | None | Some "" => Raise "ConfigError: codex not found on PATH."
  | Some cmd =>
      extra <-? match dget config "extra_args" with
                | JNull => Ok ["-c"; "notify=[]"]
                | JArr l =>
                    if forallb is_str l then Ok (map py_str l)
                    else Raise ("ConfigError: Invalid `codex.extra_args` in " ++ config_path
                                ++ "; expected a list of strings.")
                | _ => Raise ("ConfigError: Invalid `codex.extra_args` in " ++ config_path
                              ++ "; expected a list of strings.")
                end ;;
      let profile_value := dget config "profile" in
      if truthy profile_value then
        match profile_value with
        | JStr p => Ok (mkCodexRunner cmd (extra ++ ["--profile"; p]) p)
        | _ => Raise ("ConfigError: Invalid `codex.profile` in " ++ config_path
                      ++ "; expected a string.")
        end
      else Ok (mkCodexRunner cmd extra "Codex")
  end.

End Codex.

(* ------------------------------------------------------------------ *)
(** ** Session locks across concurrent runs *)

Module SessionLock.

Definition token_eq_dec (a b : ResumeToken) : {a = b} + {a <> b}.
Proof. decide equality; apply string_dec. Defined.

(** Modelled from the spec: [SessionLockMixin.lock_for] and
    [run_with_resume_lock] (in [takopi/runner.py], not among the sources).
    [lock_for] returns one mutex per resume token, so the registry is the
    set of tokens whose mutex is held.  A run given a resume token holds
    that token's mutex for the whole of [_run], taken before the
    subprocess is spawned; a run with no token spawns at once and, as in
    [ClaudeRunner._run] and [CodexRunner._run] when [expected_session is
    None], takes the mutex of the session it discovers.  Acquiring a held
    mutex blocks: the run has no step until the mutex is released. *)
Inductive Pc := Waiting | InFlight | Finished.

Record RunThread := mkThread {
  supplied : option ResumeToken;
  pc : Pc;
  holds : option ResumeToken }.

Record World := mkWorld { runs : list RunThread; held : list ResumeToken }.

Fixpoint replace_nth {A} (l : list A) (i : nat) (x : A) : list A :=
  match l, i with
  | [], _ => []
  | _ :: r, O => x :: r
  | y :: r, S j => y :: replace_nth r j x
  end.

Definition release_of (h : option ResumeToken) (held : list ResumeToken) :=
  match h with
  | Some t => remove token_eq_dec t held
  | None => held
  end.

Inductive step : World -> World -> Prop :=
| start_resumed : forall w i t,
    nth_error (runs w) i = Some (mkThread (Some t) Waiting None) ->
    ~ In t (held w) ->
    step w (mkWorld (replace_nth (runs w) i (mkThread (Some t) InFlight (Some t)))
                    (t :: held w))
| start_new : forall w i,
    nth_error (runs w) i = Some (mkThread None Waiting None) ->
    step w (mkWorld (replace_nth (runs w) i (mkThread None InFlight None)) (held w))
| discover : forall w i t,
    nth_error (runs w) i = Some (mkThread None InFlight None) ->
    ~ In t (held w) ->
    step w (mkWorld (replace_nth (runs w) i (mkThread None InFlight (Some t)))
                    (t :: held w))
| finish : forall w i sup h,
    nth_error (runs w) i = Some (mkThread sup InFlight h) ->
    step w (mkWorld (replace_nth (runs w) i (mkThread sup Finished None))
                    (release_of h (held w))).

Definition initial (w : World) : Prop :=
  held w = [] /\ Forall (fun r => pc r = Waiting /\ holds r = None) (runs w).

Inductive reachable : World -> Prop :=
| reach_init : forall w, initial w -> reachable w
| reach_step : forall w w', reachable w -> step w w' -> reachable w'.

(** The lock discipline maintained by every step: a held mutex is in the
    registry, no two runs hold the same mutex, an in-flight run that was
    given a token holds that token's mutex, and a run that is not in
    flight holds none. *)
Definition Inv (w : World) : Prop :=
  (forall i r t, nth_error (runs w) i = Some r -> holds r = Some t -> In t (held w)) /\
  (forall i j r1 r2 t, i <> j -> nth_error (runs w) i = Some r1 ->
     nth_error (runs w) j = Some r2 -> holds r1 = Some t -> holds r2 = Some t -> False) /\
  (forall i r t, nth_error (runs w) i = Some r -> pc r = InFlight ->
     supplied r = Some t -> holds r = Some t) /\
  (forall i r, nth_error (runs w) i = Some r -> pc r <> InFlight -> holds r = None).

End SessionLock.

(* ------------------------------------------------------------------ *)
(** ** Observations on run traces *)

Fixpoint yields (o : list RunOutput) : list TakopiEvent :=
  match o with
  | [] => []
  | Yield e :: r => e :: yields r
  | _ :: r => yields r
  end.

Definition no_completed (evs : list TakopiEvent) : Prop :=
  forall e, In e evs -> is_completed e = false.

(** Exactly one [CompletedEvent], and it is the last event. *)
Definition completed_once_last (evs : list TakopiEvent) : Prop :=
  exists pre c, evs = (pre ++ [EvCompleted c])%list /\ no_completed pre.

Definition count_started (evs : list TakopiEvent) : nat :=
  List.length (filter is_started evs).

Definition count_acquire (o : list RunOutput) : nat :=
  List.length (filter (fun x => match x with Acquire _ => true | _ => false end) o).

(** A completed [ActionEvent] at warning level. *)
Definition warning_action (e : TakopiEvent) : Prop :=
  match e with
  | EvAction a => ae_phase a = completed /\ ae_level a = Some level_warning
  | _ => False
  end.

Definition is_dict (j : json) : bool :=
  match j with JObj _ => true | _ => false end.

Definition count_release (o : list RunOutput) : nat :=
  List.length (filter (fun x => match x with Release _ => true | _ => false end) o).

(** A todo entry that counts as done: a dict whose [completed] is [True]. *)
Definition todo_completed (j : json) : bool :=
  match j with
  | JObj it => match dget it "completed" with JBool true => true | _ => false end
  | _ => false
  end.



(* ------------------------------------------------------------------ *)
(** ** Concrete inputs *)

Definition claude_init (sid : string) : JsonLine :=
  mkJsonLine "" "" (Some [("type", JStr "system"); ("subtype", JStr "init");
                       ("session_id", JStr sid)]).

Definition claude_result (sid answer : string) : JsonLine :=
  mkJsonLine "" "" (Some [("type", JStr "result"); ("result", JStr answer);
                       ("session_id", JStr sid)]).

Definition codex_thread (tid : string) : JsonLine :=
  mkJsonLine "" "" (Some [("type", JStr "thread.started"); ("thread_id", JStr tid)]).

Definition codex_turn_completed : JsonLine :=
  mkJsonLine "" "" (Some [("type", JStr "turn.completed")]).

Definition id_path (s : string) : string := s.

Definition codex_item_completed (item : dict) : JsonLine :=
  mkJsonLine "" "" (Some [("type", JStr "item.completed"); ("item", JObj item)]).

(** A [tool_use] block for [Bash] with id [t1], and the [tool_result]
    block answering it. *)
Definition bash_tool_use : dict :=
  [("type", JStr "tool_use"); ("id", JStr "t1"); ("name", JStr "Bash");
   ("input", JObj [("command", JStr "ls")])].

Definition bash_tool_result : dict :=
  [("type", JStr "tool_result"); ("tool_use_id", JStr "t1"); ("content", JStr "a.txt")].

Definition claude_message (etype : string) (block : dict) : dict :=
  [("type", JStr etype); ("message", JObj [("id", JStr "m1"); ("content", JArr [JObj block])])].

(* ------------------------------------------------------------------ *)
(** ** Resume text *)

Lemma list_ascii_of_string_app (a b : string) :
  list_ascii_of_string (a ++ b) = (list_ascii_of_string a ++ list_ascii_of_string b)%list.
Proof. induction a as [|c a IH]; simpl; [reflexivity | now rewrite IH]. Qed.

Lemma span_token_plain (l r : list ascii) :
  (forall c, In c l -> Claude.is_space c = false /\ c <> Claude.backtick) ->
  Claude.span_token (l ++ Claude.backtick :: r) = (l, Claude.backtick :: r).
Proof.
  induction l as [|c l IH]; intros Hl; simpl.
  - reflexivity.
  - destruct (Hl c (or_introl eq_refl)) as [Hs Hb].
    rewrite Hs, orb_false_r.
    destruct (Ascii.eqb_spec c Claude.backtick) as [E|_]; [contradiction|].
    rewrite IH; [reflexivity|].
    intros c' Hc'; apply Hl; now right.
Qed.

(** C10: [format_resume] refuses a token of another engine and renders a
    claude token as [`claude --resume {value}`]. *)
Theorem format_resume_gate (t : ResumeToken) :
  (engine t <> "claude" -> exists msg, Claude.format_resume t = Raise msg) /\
  (engine t = "claude" ->
   Claude.format_resume t = Ok ("`claude --resume " ++ value t ++ "`")).
Proof.
  unfold Claude.format_resume, Claude.ENGINE; split; intros H.
  - destruct (String.eqb_spec (engine t) "claude") as [E|_]; [contradiction|].
    simpl; eexists; reflexivity.
  - rewrite H; reflexivity.
Qed.

Lemma resume_search_start (l : list ascii) :
  Claude.resume_search true l =
  match Claude.resume_match_at l with
  | Some t => Some t
  | None => match l with
            | [] => None
            | c :: r => Claude.resume_search (Ascii.eqb c Claude.newline) r
            end
  end.
Proof. destruct l; reflexivity. Qed.

(** C4 (as amended): for a claude token whose value is nonempty and has no
    whitespace and no backtick, [extract_resume (format_resume T) = T]. *)
Lemma resume_match_formatted (c : ascii) (l : list ascii) :
  (forall c', In c' (c :: l) -> Claude.is_space c' = false /\ c' <> Claude.backtick) ->
  Claude.resume_match_at
    (list_ascii_of_string "`claude --resume " ++ (c :: l) ++ [Claude.backtick])%list
  = Some (string_of_list_ascii (c :: l)).
Proof.
  intros Hv.
  pose proof (span_token_plain (c :: l) [] Hv) as Hspan.
  destruct (Hv c (or_introl eq_refl)) as [Hs _].
  unfold Claude.resume_match_at.
  simpl.
  rewrite Hs.
  change (c :: l ++ [Claude.backtick])%list with ((c :: l) ++ Claude.backtick :: [])%list.
  rewrite Hspan.
  reflexivity.
Qed.

(** C4 (as amended): for a claude token whose value is nonempty and has no
    whitespace and no backtick, [extract_resume (format_resume T) = T]. *)
Theorem claude_resume_roundtrip (v : string) :
  v <> "" ->
  (forall c, In c (list_ascii_of_string v) -> Claude.is_space c = false /\ c <> Claude.backtick) ->
  exists txt, Claude.format_resume (mkResumeToken "claude" v) = Ok txt /\
              Claude.extract_resume txt = Some (mkResumeToken "claude" v).
Proof.
  intros Hne Hv.
  eexists; split; [reflexivity|].
  unfold Claude.extract_resume; cbn [value].
  rewrite !list_ascii_of_string_app.
  change (list_ascii_of_string "`") with [Claude.backtick].
  destruct (list_ascii_of_string v) as [|c l] eqn:Ev.
  { exfalso; apply Hne.
    rewrite <- (string_of_list_ascii_of_string v), Ev; reflexivity. }
  rewrite resume_search_start.
  rewrite resume_match_formatted by exact Hv.
  rewrite <- Ev, string_of_list_ascii_of_string.
  reflexivity.
Qed.

Lemma claude_resume_roundtrip_witness :
  ("abc" <> "" /\
   (forall c, In c (list_ascii_of_string "abc") ->
              Claude.is_space c = false /\ c <> Claude.backtick)) /\
  exists txt, Claude.format_resume (mkResumeToken "claude" "abc") = Ok txt /\
              Claude.extract_resume txt = Some (mkResumeToken "claude" "abc").
Proof.
  assert (H1 : "abc" <> "") by discriminate.
  assert (H2 : forall c, In c (list_ascii_of_string "abc") ->
                         Claude.is_space c = false /\ c <> Claude.backtick).
  { simpl; intros c [<-|[<-|[<-|[]]]]; split; try reflexivity; discriminate. }
  split; [split; assumption|].
  apply (claude_resume_roundtrip "abc" H1 H2).
Defined.

(** C4 fails as stated: a value with a space is formatted without quotes,
    and the pattern does not match the formatted text. *)
Lemma claude_resume_space_counterexample :
  Claude.format_resume (mkResumeToken "claude" "a b") = Ok "`claude --resume a b`" /\
  Claude.extract_resume "`claude --resume a b`" = None.
Proof. split; vm_compute; reflexivity. Qed.

(** C3 (code defect): a second [system/init] record with the same session id
    makes the claude runner yield a second [StartedEvent] (here with the
    caller's token) and, without a token, try to acquire the session lock a
    second time.  The codex runner ignores repeated [thread.started]. *)
Theorem claude_repeated_init_restarts :
  let tok := mkResumeToken "claude" "s1" in
  count_started (yields (fst (fst
    (Claude._run id_path id_path "claude" (Some tok)
       [claude_init "s1"; claude_init "s1"; claude_result "s1" "done"] 0 "")))) = 2 /\
  count_acquire (fst (fst
    (Claude._run id_path id_path "claude" None
       [claude_init "s1"; claude_init "s1"; claude_result "s1" "done"] 0 ""))) = 2 /\
  count_started (yields (fst (fst
    (Codex._run id_path "Codex" (Some (mkResumeToken "codex" "s1"))
       [codex_thread "s1"; codex_thread "s1"; codex_turn_completed] 0 "")))) = 1.
Proof. vm_compute; repeat split. Qed.

(* ------------------------------------------------------------------ *)
(** ** Run traces: reasoning principles *)

Lemma yields_app (a b : list RunOutput) :
  yields (a ++ b) = (yields a ++ yields b)%list.
Proof. induction a as [|x a IH]; [reflexivity|]; destruct x; simpl; now rewrite ?IH. Qed.

Lemma bind_ok {S A B} (m : RunM S A) (k : A -> RunM S B) s o s' b :
  bind m k s = (o, s', Ok b) ->
  exists o1 s1 a o2, m s = (o1, s1, Ok a) /\ k a s1 = (o2, s', Ok b) /\ o = (o1 ++ o2)%list.
Proof.
  unfold bind; destruct (m s) as [[o1 s1] [a|e]]; [|discriminate].
  destruct (k a s1) as [[o2 s2] r] eqn:E; intros H; inversion H; subst.
  exists o1, s1, a, o2; auto.
Qed.

Ltac run_inv :=
  repeat match goal with
  | H : bind _ _ _ = (_, _, Ok _) |- _ =>
      apply bind_ok in H; destruct H as (? & ? & ? & ? & ? & H & ?); cbv beta in H; subst
  | H : yield _ _ = (_, _, Ok _) |- _ => unfold yield, emit in H; inversion H; subst; clear H
  | H : emit _ _ = (_, _, Ok _) |- _ => unfold emit in H; inversion H; subst; clear H
  | H : get _ = (_, _, Ok _) |- _ => unfold get in H; inversion H; subst; clear H
  | H : put _ _ = (_, _, Ok _) |- _ => unfold put in H; inversion H; subst; clear H
  | H : modify _ _ = (_, _, Ok _) |- _ => unfold modify in H; inversion H; subst; clear H
  | H : ret _ _ = (_, _, Ok _) |- _ => unfold ret in H; inversion H; subst; clear H
  | H : raise _ _ = (_, _, Ok _) |- _ => discriminate H
  | H : lift _ _ = (_, _, Ok _) |- _ => unfold lift in H; inversion H; subst; clear H
  | H : (if is_completed ?e then _ else _) _ = _ |- _ => cbn [is_completed] in H
  end.

(** The trace property carried through a stream loop: [d] and [d'] are the
    [did_emit_completed] flags before and after. *)
Definition P (d : bool) (o : list RunOutput) (d' : bool) : Prop :=
  if d then yields o = [] /\ d' = true
  else (d' = false /\ no_completed (yields o)) \/
       (d' = true /\ completed_once_last (yields o)).

Lemma no_completed_app a b :
  no_completed a -> no_completed b -> no_completed (a ++ b)%list.
Proof. intros Ha Hb e He; apply in_app_or in He; destruct He; auto. Qed.

Lemma P_app d o1 d1 o2 d2 : P d o1 d1 -> P d1 o2 d2 -> P d (o1 ++ o2)%list d2.
Proof.
  unfold P; rewrite yields_app; destruct d.
  - intros [E ->] [E2 ->]; rewrite E, E2; auto.
  - intros [[-> N1]|[-> C1]].
    + intros [[-> N2]|[-> (pre & c & E & N2)]].
      * left; split; [reflexivity|now apply no_completed_app].
      * right; split; [reflexivity|].
        exists (yields o1 ++ pre)%list, c; rewrite E, app_assoc; split;
          [reflexivity|now apply no_completed_app].
    + intros [E ->]; rewrite E, app_nil_r; auto.
Qed.

Lemma P_nil d : P d [] d.
Proof. destruct d; simpl; [auto|left; split; [reflexivity|intros e []]]. Qed.

Lemma P_event e : is_completed e = false -> P false [Yield e] false.
Proof.
  intros H; left; split; [reflexivity|]; simpl; intros e' [<-|[]]; exact H.
Qed.

Lemma P_other o : (forall e, o <> Yield e) -> P false [o] false.
Proof.
  intros H; left; split; [|].
  - reflexivity.
  - destruct o; [exfalso; eapply H; reflexivity| |]; simpl; intros e' [].
Qed.

Lemma P_completed c : P false [Yield (EvCompleted c)] true.
Proof.
  right; split; [reflexivity|]; exists [], c; split; [reflexivity|intros e []].
Qed.

Lemma completed_once_last_app_nil a b :
  completed_once_last a -> b = [] -> completed_once_last (a ++ b)%list.
Proof. intros H ->; now rewrite app_nil_r. Qed.

Lemma no_completed_then_last a b :
  no_completed a -> completed_once_last b -> completed_once_last (a ++ b)%list.
Proof.
  intros N (pre & c & -> & N2); exists (a ++ pre)%list, c; rewrite app_assoc;
    split; [reflexivity|now apply no_completed_app].
Qed.

Lemma with_release_yields {S} (lk : S -> option ResumeToken) (acq : S -> bool)
    (m : RunM S unit) s o s' r :
  with_release lk acq m s = (o, s', r) ->
  exists o0, m s = (o0, s', r) /\ yields o = yields o0.
Proof.
  unfold with_release; destruct (m s) as [[o0 s0] r0].
  destruct (lk s0) as [t|]; [destruct (acq s0)|]; intros H; inversion H; subst.
  all: eexists; split; [reflexivity|].
  all: rewrite ?yields_app; simpl; now rewrite ?app_nil_r.
Qed.

Lemma P_cons d1 x o d2 : P false [x] d1 -> P d1 o d2 -> P false (x :: o) d2.
Proof. intros H1 H2; exact (P_app false [x] d1 o d2 H1 H2). Qed.

Ltac P_norm := rewrite ?app_nil_r; cbn [app].

Lemma claude_emit_translated_P exp outs : forall s o s' a,
  Claude.emit_translated exp outs s = (o, s', Ok a) ->
  Claude.did_emit_completed s = false ->
  P false o (Claude.did_emit_completed s').
Proof.
  induction outs as [|e outs IH]; intros s o s' a H Hd; simpl in H.
  - run_inv; rewrite Hd; apply P_nil.
  - destruct e as [se|ae|ce].
    + destruct (negb _); [run_inv|].
      destruct (match exp with Some _ => _ | None => false end); [run_inv|].
      destruct exp as [x|]; run_inv; P_norm.
      * eapply P_cons; [apply P_event; reflexivity|].
        eapply IH; [eassumption|exact Hd].
      * eapply P_cons; [apply P_other; discriminate|].
        eapply P_cons; [apply P_event; reflexivity|].
        eapply IH; [eassumption|exact Hd].
    + run_inv; P_norm; eapply P_cons; [apply P_event; reflexivity|].
      eapply IH; [eassumption|exact Hd].
    + run_inv; P_norm; apply P_completed.
Qed.

Lemma claude_stream_loop_P rc rp title exp lines : forall s o s' a,
  Claude.stream_loop rc rp title exp lines s = (o, s', Ok a) ->
  P (Claude.did_emit_completed s) o (Claude.did_emit_completed s').
Proof.
  induction lines as [|l ls IH]; intros s o s' a H; simpl in H.
  - run_inv; apply P_nil.
  - run_inv.
    match goal with H : context[if Claude.did_emit_completed ?x then _ else _] |- _ =>
      destruct (Claude.did_emit_completed x) eqn:Hd end.
    + P_norm; rewrite <- Hd; eapply IH; exact H.
    + destruct (data l) as [evt|].
      * run_inv; P_norm.
        eapply P_app; [eapply claude_emit_translated_P; [eassumption|exact Hd]|].
        eapply IH; eassumption.
      * unfold Claude.next_note_id in *; run_inv; P_norm.
        eapply P_cons; [apply P_event; reflexivity|].
        pose proof (IH _ _ _ _ H) as HP; cbn [Claude.did_emit_completed] in HP.
        rewrite Hd in HP; exact HP.
Qed.

Lemma claude_after_exit_spec rt rc st : forall s o s' a,
  Claude.after_exit rt rc st s = (o, s', Ok a) ->
  (Claude.did_emit_completed s = true -> yields o = []) /\
  (Claude.did_emit_completed s = false -> completed_once_last (yields o)).
Proof.
  intros s o s' a H; unfold Claude.after_exit in H; run_inv.
  match goal with H : context[if Claude.did_emit_completed ?x then _ else _] |- _ =>
    destruct (Claude.did_emit_completed x) eqn:Hd end.
  - run_inv; split; [reflexivity|discriminate].
  - split; [discriminate|intros _].
    destruct (negb (rc =? 0)%Z).
    + unfold Claude.next_note_id in *; run_inv; P_norm.
      eexists [_], _; split; [reflexivity|]; intros e [<-|[]]; reflexivity.
    + match goal with H : context[match Claude.found_session ?x with _ => _ end] |- _ =>
        destruct (Claude.found_session x) end;
      run_inv; P_norm; eexists [], _; (split; [reflexivity|intros e []]).
Qed.

Ltac solve_no_completed :=
  intros ? He; simpl in He; repeat destruct He as [<-|He]; try reflexivity; destruct He.

Lemma codex_item_no_completed relc etype item outs :
  Codex._translate_item_event relc etype item = Ok outs -> no_completed outs.
Proof.
  unfold Codex._translate_item_event; intros H.
  repeat match goal with
  | H : Ok _ = Ok _ |- _ => inversion H; subst; clear H
  | H : Raise _ = Ok _ |- _ => discriminate H
  | H : py_bind ?m _ = Ok _ |- _ => destruct m eqn:?; cbn [py_bind] in H
  | H : (if ?b then _ else _) = Ok _ |- _ => destruct b
  | H : (match ?x with _ => _ end) = Ok _ |- _ => destruct x
  | H : (let '(_, _) := ?p in _) = Ok _ |- _ => destruct p
  end; solve_no_completed.
Qed.

Lemma codex_translate_no_completed relc evt title outs :
  Codex.translate_codex_event relc evt title = Ok outs -> no_completed outs.
Proof.
  unfold Codex.translate_codex_event; intros H.
  destruct (jeq_str _ _).
  - destruct (truthy _); inversion H; subst; solve_no_completed.
  - destruct (dget evt "type"); try (inversion H; subst; solve_no_completed).
    destruct (str_in _ _); [|inversion H; subst; solve_no_completed].
    destruct (Codex.as_item _); [|discriminate H].
    eapply codex_item_no_completed; exact H.
Qed.

Lemma codex_emit_translated_spec exp outs : forall s o s' a,
  no_completed outs ->
  Codex.emit_translated exp outs s = (o, s', Ok a) ->
  Codex.did_emit_completed s' = Codex.did_emit_completed s /\ no_completed (yields o).
Proof.
  induction outs as [|e outs IH]; intros s o s' a Hn H; simpl in H.
  - run_inv; split; [reflexivity|intros e []].
  - assert (Hn' : no_completed outs) by (intros x Hx; apply Hn; now right).
    destruct e as [se|ae|ce].
    + run_inv.
      match goal with H : context[match Codex.found_session ?x with _ => _ end] |- _ =>
        destruct (Codex.found_session x) eqn:Hf end.
      * apply IH in H; auto.
      * destruct (negb _); [run_inv|].
        destruct (match exp with Some _ => _ | None => false end); [run_inv|].
        destruct exp as [x|]; run_inv; P_norm;
          (apply IH in H; [|exact Hn']); destruct H as [Hd Hy]; rewrite Hd;
          (split; [reflexivity|]); simpl.
        -- intros x' [<-|Hx]; [reflexivity|now apply Hy].
        -- intros x' [<-|Hx]; [reflexivity|now apply Hy].
    + run_inv; P_norm; apply IH in H; [|exact Hn']; destruct H as [Hd Hy];
        split; [exact Hd|]; intros x [<-|Hx]; [reflexivity|now apply Hy].
    + specialize (Hn _ (or_introl eq_refl)); discriminate Hn.
Qed.

Lemma codex_track_answer_spec evt s o s' a :
  Codex.track_answer evt s = (o, s', Ok a) ->
  o = [] /\ Codex.did_emit_completed s' = Codex.did_emit_completed s.
Proof.
  unfold Codex.track_answer; intros H.
  destruct (jeq_str _ _); [|run_inv; auto].
  run_inv.
  repeat match goal with
  | H : (match ?x with _ => _ end) _ = _ |- _ => destruct x
  end; run_inv; auto.
Qed.

Lemma codex_handle_event_P relc title rt evt : forall s o s' a,
  Codex.handle_event relc title rt evt s = (o, s', Ok a) ->
  Codex.did_emit_completed s = false ->
  P false o (Codex.did_emit_completed s').
Proof.
  intros s o s' a H Hd; unfold Codex.handle_event in H; run_inv.
  destruct (jeq_str _ "error").
  { destruct (Codex.is_fatal _).
    - run_inv; P_norm; apply P_completed.
    - unfold Codex.next_note_id in *; run_inv; P_norm.
      cbn [Codex.did_emit_completed Codex.bump_turn]; rewrite ?Hd; apply P_event; reflexivity. }
  destruct (jeq_str _ "turn.failed").
  { run_inv; P_norm; apply P_completed. }
  destruct (jeq_str _ "turn.rate_limited").
  { unfold Codex.next_note_id in *; run_inv; P_norm.
    cbn [Codex.did_emit_completed Codex.bump_turn]; rewrite ?Hd; apply P_event; reflexivity. }
  destruct (jeq_str _ "turn.started").
  { run_inv; P_norm. cbn [Codex.did_emit_completed Codex.bump_turn]; rewrite ?Hd; apply P_event; reflexivity. }
  destruct (jeq_str _ "turn.completed").
  { run_inv; P_norm; apply P_completed. }
  run_inv.
  match goal with T : Codex.track_answer _ _ = _ |- _ =>
    apply codex_track_answer_spec in T; destruct T as [-> Ht] end.
  match goal with
  | T : Codex.translate_codex_event _ _ _ = Ok ?outs,
    E : Codex.emit_translated _ ?outs _ = _ |- _ =>
      apply codex_translate_no_completed in T;
      apply (codex_emit_translated_spec _ _ _ _ _ _ T) in E; destruct E as [E1 E2]
  end.
  P_norm; left; split; [congruence|exact E2].
Qed.

Lemma codex_stream_loop_P relc title rt lines : forall s o s' a,
  Codex.stream_loop relc title rt lines s = (o, s', Ok a) ->
  P (Codex.did_emit_completed s) o (Codex.did_emit_completed s').
Proof.
  induction lines as [|l ls IH]; intros s o s' a H; simpl in H.
  - run_inv; apply P_nil.
  - run_inv.
    match goal with H : context[if Codex.did_emit_completed ?x then _ else _] |- _ =>
      destruct (Codex.did_emit_completed x) eqn:Hd end.
    + P_norm; rewrite <- Hd; eapply IH; exact H.
    + destruct (data l) as [evt|].
      * run_inv; P_norm.
        eapply P_app; [eapply codex_handle_event_P; [eassumption|exact Hd]|].
        eapply IH; eassumption.
      * unfold Codex.next_note_id in *; run_inv; P_norm.
        eapply P_cons; [apply P_event; reflexivity|].
        pose proof (IH _ _ _ _ H) as HP; cbn [Codex.did_emit_completed] in HP.
        rewrite Hd in HP; exact HP.
Qed.

Lemma codex_after_exit_spec rt rc st : forall s o s' a,
  Codex.after_exit rt rc st s = (o, s', Ok a) ->
  (Codex.did_emit_completed s = true -> yields o = []) /\
  (Codex.did_emit_completed s = false -> completed_once_last (yields o)).
Proof.
  intros s o s' a H; unfold Codex.after_exit in H; run_inv.
  match goal with H : context[if Codex.did_emit_completed ?x then _ else _] |- _ =>
    destruct (Codex.did_emit_completed x) eqn:Hd end.
  - run_inv; split; [reflexivity|discriminate].
  - split; [discriminate|intros _].
    destruct (negb (rc =? 0)%Z).
    + unfold Codex.next_note_id in *; run_inv; P_norm.
      eexists [_], _; split; [reflexivity|]; intros e [<-|[]]; reflexivity.
    + match goal with H : context[match Codex.found_session ?x with _ => _ end] |- _ =>
        destruct (Codex.found_session x) end;
      run_inv; P_norm; eexists [], _; (split; [reflexivity|intros e []]).
Qed.

(** Runs that raise. *)

Lemma bind_raise {S A B} (m : RunM S A) (k : A -> RunM S B) s o s' e :
  bind m k s = (o, s', Raise e) ->
  m s = (o, s', Raise e) \/
  exists o1 s1 a o2, m s = (o1, s1, Ok a) /\ k a s1 = (o2, s', Raise e) /\ o = (o1 ++ o2)%list.
Proof.
  unfold bind; destruct (m s) as [[o1 s1] [a|e1]].
  - destruct (k a s1) as [[o2 s2] r] eqn:E; intros H; inversion H; subst.
    right; exists o1, s1, a, o2; auto.
  - intros H; inversion H; subst; left; reflexivity.
Qed.

Ltac raise_step :=
  match goal with
  | H : bind _ _ _ = (_, _, Raise _) |- _ =>
      apply bind_raise in H; destruct H as [H|(? & ? & ? & ? & ? & H & ?)]; cbv beta in H; subst
  | H : yield _ _ = (_, _, Raise _) |- _ => unfold yield, emit in H; discriminate H
  | H : emit _ _ = (_, _, Raise _) |- _ => unfold emit in H; discriminate H
  | H : get _ = (_, _, Raise _) |- _ => unfold get in H; discriminate H
  | H : put _ _ = (_, _, Raise _) |- _ => unfold put in H; discriminate H
  | H : modify _ _ = (_, _, Raise _) |- _ => unfold modify in H; discriminate H
  | H : ret _ _ = (_, _, Raise _) |- _ => unfold ret in H; discriminate H
  | H : raise _ _ = (_, _, Raise _) |- _ => unfold raise in H; inversion H; subst; clear H
  | H : lift _ _ = (_, _, Raise _) |- _ => unfold lift in H; inversion H; subst; clear H
  | H : (if is_completed ?e then _ else _) _ = _ |- _ => cbn [is_completed] in H
  end.

Ltac raise_inv := repeat (first [raise_step | progress run_inv]).

Lemma no_completed_nil : no_completed [].
Proof. intros e []. Qed.

Lemma no_completed_cons e l : is_completed e = false -> no_completed l -> no_completed (e :: l).
Proof. intros He Hl x [<-|Hx]; [exact He|exact (Hl x Hx)]. Qed.

Lemma P_false_false o : P false o false -> no_completed (yields o).
Proof. intros [[_ N]|[D _]]; [exact N|discriminate D]. Qed.

Ltac nc_solve :=
  repeat (rewrite ?yields_app; cbn [yields app]);
  repeat first [ apply no_completed_app | apply no_completed_nil
               | apply no_completed_cons; [reflexivity|] | assumption ].

Lemma claude_emit_translated_raise exp outs : forall s o s' e,
  Claude.emit_translated exp outs s = (o, s', Raise e) -> no_completed (yields o).
Proof.
  induction outs as [|ev outs IH]; intros s o s' e H; simpl in H.
  - unfold ret in H; discriminate H.
  - destruct ev as [se|ae|ce].
    + destruct (negb _); [raise_inv; nc_solve|].
      destruct (match exp with Some _ => _ | None => false end); [raise_inv; nc_solve|].
      destruct exp; raise_inv; try (apply IH in H); nc_solve.
    + raise_inv; apply IH in H; nc_solve.
    + raise_inv.
Qed.

Lemma claude_stream_loop_raise rc rp title exp lines : forall s o s' e,
  Claude.stream_loop rc rp title exp lines s = (o, s', Raise e) ->
  Claude.did_emit_completed s = false /\ no_completed (yields o).
Proof.
  induction lines as [|l ls IH]; intros s o s' e H; simpl in H.
  - unfold ret in H; discriminate H.
  - raise_inv.
    match goal with H : context[if Claude.did_emit_completed ?x then _ else _] |- _ =>
      destruct (Claude.did_emit_completed x) eqn:Hd end.
    + apply IH in H; destruct H as [H _]; congruence.
    + split; [reflexivity|].
      destruct (data l) as [evt|].
      * raise_inv; cbn [yields app] in *.
        -- apply no_completed_nil.
        -- eapply claude_emit_translated_raise; eassumption.
        -- match goal with
           | E : Claude.emit_translated _ _ _ = (_, _, Ok _),
             L : Claude.stream_loop _ _ _ _ _ _ = (_, _, Raise _) |- _ =>
               pose proof (claude_emit_translated_P _ _ _ _ _ _ E Hd) as HP;
               apply IH in L; destruct L as [L1 L2]; rewrite L1 in HP
           end.
           apply P_false_false in HP; nc_solve.
      * unfold Claude.next_note_id in *; raise_inv.
        apply IH in H; destruct H as [_ H]; nc_solve.
Qed.

Lemma claude_after_exit_ok rt rc st s o s' r :
  Claude.after_exit rt rc st s = (o, s', r) -> r = Ok tt.
Proof.
  destruct s as [lk acq [] ns stt fs];
    unfold Claude.after_exit, Claude.next_note_id, bind, get, put, ret, yield, emit;
    cbn - [z_to_string nat_to_string String.append];
    [intros H; inversion H; reflexivity|].
  destruct (negb (rc =? 0)%Z); [intros H; inversion H; reflexivity|].
  destruct fs; intros H; inversion H; reflexivity.
Qed.

Lemma codex_emit_translated_raise exp outs : forall s o s' e,
  no_completed outs ->
  Codex.emit_translated exp outs s = (o, s', Raise e) -> no_completed (yields o).
Proof.
  induction outs as [|ev outs IH]; intros s o s' e Hn H; simpl in H.
  - unfold ret in H; discriminate H.
  - assert (Hn' : no_completed outs) by (intros x Hx; apply Hn; now right).
    destruct ev as [se|ae|ce].
    + raise_inv.
      match goal with H : context[match Codex.found_session ?x with _ => _ end] |- _ =>
        destruct (Codex.found_session x) end.
      * eapply IH; eassumption.
      * destruct (negb _); [raise_inv; nc_solve|].
        destruct (match exp with Some _ => _ | None => false end); [raise_inv; nc_solve|].
        destruct exp; raise_inv; try (apply IH in H; [|exact Hn']); nc_solve.
    + raise_inv; apply IH in H; [nc_solve|exact Hn'].
    + specialize (Hn _ (or_introl eq_refl)); discriminate Hn.
Qed.

Lemma codex_track_answer_out evt s o s' r :
  Codex.track_answer evt s = (o, s', r) -> o = [].
Proof.
  unfold Codex.track_answer, bind, lift, ret, modify.
  destruct (jeq_str _ _); [|intros H; inversion H; reflexivity].
  destruct (Codex.as_item _) as [item|m]; [|intros H; inversion H; reflexivity].
  destruct (jeq_str _ "agent_message"), (dget item "text");
    intros H; inversion H; reflexivity.
Qed.

Lemma codex_handle_event_raise relc title rt evt s o s' e :
  Codex.handle_event relc title rt evt s = (o, s', Raise e) -> no_completed (yields o).
Proof.
  intros H; unfold Codex.handle_event in H; raise_inv.
  destruct (jeq_str _ "error").
  { destruct (Codex.is_fatal _); unfold Codex.next_note_id in *; raise_inv. }
  destruct (jeq_str _ "turn.failed"); [raise_inv; nc_solve|].
  destruct (jeq_str _ "turn.rate_limited"); [unfold Codex.next_note_id in *; raise_inv|].
  destruct (jeq_str _ "turn.started"); [raise_inv|].
  destruct (jeq_str _ "turn.completed"); [raise_inv|].
  apply bind_raise in H; destruct H as [H|(o1 & s1 & a & o2 & H1 & H & ->)].
  - apply codex_track_answer_out in H; subst; nc_solve.
  - apply codex_track_answer_out in H1; subst.
    apply bind_raise in H; destruct H as [H|(o3 & s3 & outs & o4 & H3 & H & ->)].
    + unfold lift in H; inversion H; subst; nc_solve.
    + unfold lift in H3; inversion H3; subst.
      match goal with T : Codex.translate_codex_event _ _ _ = Ok _ |- _ =>
        apply codex_translate_no_completed in T end.
      eapply codex_emit_translated_raise in H; [nc_solve|eassumption].
Qed.

Lemma codex_stream_loop_raise relc title rt lines : forall s o s' e,
  Codex.stream_loop relc title rt lines s = (o, s', Raise e) ->
  Codex.did_emit_completed s = false /\ no_completed (yields o).
Proof.
  induction lines as [|l ls IH]; intros s o s' e H; simpl in H.
  - unfold ret in H; discriminate H.
  - raise_inv.
    match goal with H : context[if Codex.did_emit_completed ?x then _ else _] |- _ =>
      destruct (Codex.did_emit_completed x) eqn:Hd end.
    + apply IH in H; destruct H as [H _]; congruence.
    + split; [reflexivity|].
      destruct (data l) as [evt|].
      * apply bind_raise in H; destruct H as [H|(o1 & s1 & a & o2 & H1 & H & ->)].
        -- eapply codex_handle_event_raise; eassumption.
        -- pose proof (codex_handle_event_P _ _ _ _ _ _ _ _ H1 Hd) as HP.
           apply IH in H; destruct H as [L1 L2]; rewrite L1 in HP.
           apply P_false_false in HP; nc_solve.
      * unfold Codex.next_note_id in *; raise_inv.
        apply IH in H; destruct H as [_ H]; nc_solve.
Qed.

Lemma codex_after_exit_ok rt rc st s o s' r :
  Codex.after_exit rt rc st s = (o, s', r) -> r = Ok tt.
Proof.
  destruct s as [lk acq fs fa ns [] ti];
    unfold Codex.after_exit, Codex.next_note_id, bind, get, put, ret, yield, emit;
    cbn - [z_to_string nat_to_string String.append];
    [intros H; inversion H; reflexivity|].
  destruct (negb (rc =? 0)%Z); [intros H; inversion H; reflexivity|].
  destruct fs; intros H; inversion H; reflexivity.
Qed.

(* ------------------------------------------------------------------ *)
(** ** Claims on whole runs *)

(** C1 (as amended): every run of either runner that ends without an
    exception yields exactly one [CompletedEvent], as its last event; every
    run that raises yields no [CompletedEvent] at all. *)
Theorem run_completed_once_last :
  (forall relc relp title rt lines rc stderr_text o s',
     Claude._run relc relp title rt lines rc stderr_text = (o, s', Ok tt) ->
     completed_once_last (yields o)) /\
  (forall relc title rt lines rc stderr_text o s',
     Codex._run relc title rt lines rc stderr_text = (o, s', Ok tt) ->
     completed_once_last (yields o)) /\
  (forall relc relp title rt lines rc stderr_text o s' e,
     Claude._run relc relp title rt lines rc stderr_text = (o, s', Raise e) ->
     no_completed (yields o)) /\
  (forall relc title rt lines rc stderr_text o s' e,
     Codex._run relc title rt lines rc stderr_text = (o, s', Raise e) ->
     no_completed (yields o)).
Proof.
  split; [|split; [|split]].
  - intros relc relp title rt lines rc st o s' H.
    apply with_release_yields in H; destruct H as (o0 & H & ->).
    run_inv.

    match goal with
    | L : Claude.stream_loop _ _ _ _ _ _ = _, A : Claude.after_exit _ _ _ _ = _ |- _ =>
        pose proof (claude_stream_loop_P _ _ _ _ _ _ _ _ _ L) as HL;
        pose proof (claude_after_exit_spec _ _ _ _ _ _ _ A) as HA
    end.
    rewrite yields_app; unfold P in HL; simpl in HL.
    destruct HL as [[Hd Hn]|[Hd Hc]]; destruct HA as [A1 A2].
    + apply no_completed_then_last; [exact Hn|exact (A2 Hd)].
    + apply completed_once_last_app_nil; [exact Hc|exact (A1 Hd)].
  - intros relc title rt lines rc st o s' H.
    apply with_release_yields in H; destruct H as (o0 & H & ->).
    run_inv.
    match goal with
    | L : Codex.stream_loop _ _ _ _ _ = _, A : Codex.after_exit _ _ _ _ = _ |- _ =>
        pose proof (codex_stream_loop_P _ _ _ _ _ _ _ _ L) as HL;
        pose proof (codex_after_exit_spec _ _ _ _ _ _ _ A) as HA
    end.
    rewrite yields_app; unfold P in HL; simpl in HL.
    destruct HL as [[Hd Hn]|[Hd Hc]]; destruct HA as [A1 A2].
    + apply no_completed_then_last; [exact Hn|exact (A2 Hd)].
    + apply completed_once_last_app_nil; [exact Hc|exact (A1 Hd)].
  - intros relc relp title rt lines rc st o s' e H.
    apply with_release_yields in H; destruct H as (o0 & H & ->).
    apply bind_raise in H; destruct H as [H|(o1 & s1 & a & o2 & H1 & H & ->)].
    + apply claude_stream_loop_raise in H; apply H.
    + apply claude_after_exit_ok in H; discriminate H.
  - intros relc title rt lines rc st o s' e H.
    apply with_release_yields in H; destruct H as (o0 & H & ->).
    apply bind_raise in H; destruct H as [H|(o1 & s1 & a & o2 & H1 & H & ->)].
    + apply codex_stream_loop_raise in H; apply H.
    + apply codex_after_exit_ok in H; discriminate H.
Qed.

(** C1 fails as stated for runs that raise: a claude run resumed with
    token [s1] whose stream reveals session [s2] raises and yields no
    [CompletedEvent] at all. *)
Lemma run_raises_without_completed :
  let r := Claude._run id_path id_path "claude" (Some (mkResumeToken "claude" "s1"))
             [claude_init "s2"] 0 "" in
  snd r = Raise "RuntimeError: claude emitted a different session id than expected" /\
  ~ completed_once_last (yields (fst (fst r))).
Proof.
  vm_compute; split; [reflexivity|].
  intros (pre & c & E & _); destruct pre; discriminate E.
Qed.

(** C2 (code defect): when the stream produced no terminal record, the
    exit code was zero and a session is known, the codex runner synthesises
    a SUCCESSFUL completion (no error, the last agent message or [""] as
    answer), where the claude runner, like the spec, fails with "finished
    without a result event".  The run below starts thread [t1] and exits
    with code 0 without a terminal record; the claude run starts session
    [s1] and does the same. *)
Theorem codex_exit_without_result_succeeds :
  (forall rt st s f, Codex.did_emit_completed s = false -> Codex.found_session s = Some f ->
   let '(o, _, r) := Codex.after_exit rt 0 st s in
   r = Ok tt /\
   yields o = [EvCompleted (mkCompleted "codex" true (Codex.answer_of s) (Some f) None None)]) /\
  hd_error (rev (yields (fst (fst (Codex._run id_path "codex" None [codex_thread "t1"] 0 ""))))) =
    Some (EvCompleted (mkCompleted "codex" true "" (Some (mkResumeToken "codex" "t1"))
                         None None)) /\
  hd_error (rev (yields (fst (fst
    (Claude._run id_path id_path "claude" None [claude_init "s1"] 0 ""))))) =
    Some (EvCompleted (mkCompleted "claude" false "" (Some (mkResumeToken "claude" "s1"))
                         (Some "claude finished without a result event") None)).
Proof.
  split; [|split; vm_compute; reflexivity].
  intros rt st [lk acq fs fa ns did ti] f Hd Hf; cbn in Hd, Hf; subst did fs.
  unfold Codex.after_exit, bind, get, yield, emit, ret; cbn.
  split; reflexivity.
Qed.

(* ------------------------------------------------------------------ *)
(** ** Session identity checks *)

Lemma token_eqb_true a b : token_eqb a b = true -> a = b.
Proof.
  destruct a as [e1 v1], b as [e2 v2]; unfold token_eqb; cbn.
  intros H; apply andb_prop in H as [H1 H2].
  apply String.eqb_eq in H1, H2; now subst.
Qed.

Lemma session_mismatch_flags ENG exp (t : ResumeToken) :
  (engine t <> ENG \/ exists e, exp = Some e /\ t <> e) ->
  negb (String.eqb (engine t) ENG) = true \/
  (String.eqb (engine t) ENG = true /\
   match exp with Some e => negb (token_eqb t e) | None => false end = true).
Proof.
  intros Hm; destruct (String.eqb (engine t) ENG) eqn:He; [right|left; reflexivity].
  split; [reflexivity|].
  apply String.eqb_eq in He.
  destruct Hm as [Hm|(e & -> & Hne)]; [contradiction|].
  destruct (token_eqb t e) eqn:Ht; [apply token_eqb_true in Ht; contradiction|reflexivity].
Qed.

(** C5 (code defect): the codex runner checks a session token's engine and
    its agreement with the caller's resume token only while no session is
    known ([if found_session is None]); once one is, every later
    [StartedEvent] is dropped silently, a contradicting one included.  So a
    codex run resumed with [t1] that reports thread [t1] and then thread
    [t2] completes successfully, while the claude runner, on the same
    situation, raises. *)
Theorem codex_later_session_mismatch_dropped :
  (forall exp se rest s f,
     Codex.found_session s = Some f ->
     Codex.emit_translated exp (EvStarted se :: rest) s = Codex.emit_translated exp rest s) /\
  (let r := Codex._run id_path "codex" (Some (mkResumeToken "codex" "t1"))
              [codex_thread "t1"; codex_thread "t2"; codex_turn_completed] 0 "" in
   snd r = Ok tt /\
   yields (fst (fst r)) =
     [EvStarted (mkStarted "codex" (mkResumeToken "codex" "t1") "codex" None);
      EvCompleted (mkCompleted "codex" true "" (Some (mkResumeToken "codex" "t1")) None None)]) /\
  snd (Claude._run id_path id_path "claude" (Some (mkResumeToken "claude" "s1"))
         [claude_init "s1"; claude_init "s2"; claude_result "s1" "done"] 0 "") =
    Raise "RuntimeError: claude emitted a different session id than expected".
Proof.
  split; [|split; [vm_compute; split; reflexivity|vm_compute; reflexivity]].
  intros exp se rest s f Hf; cbn [Codex.emit_translated].
  unfold bind at 1, get; rewrite Hf.
  destruct (Codex.emit_translated exp rest s) as [[o s'] r]; reflexivity.
Qed.

(* ------------------------------------------------------------------ *)
(** ** Non-fatal upstream conditions *)

Lemma in_yields e o : In (Yield e) o -> In e (yields o).
Proof.
  induction o as [|x o IH]; [intros []|].
  intros [E|H]; [subst x; left; reflexivity|destruct x; cbn; auto].
Qed.

Lemma claude_assistant_fold_no_completed rc rp mid parent blocks : forall acc,
  no_completed (fst acc) ->
  no_completed (fst (fold_left (Claude._assistant_block rc rp mid parent) blocks acc)).
Proof.
  induction blocks as [|b bs IH]; intros [out st] Hn; [exact Hn|].
  cbn [fold_left]; apply IH; unfold Claude._assistant_block.
  destruct b; try exact Hn.
  destruct (jeq_str _ "tool_use");
    [destruct (Claude._tool_action _ _ _)|destruct (jeq_str _ "text");
       [destruct (nonempty_str _)|]]; try exact Hn.
  apply no_completed_app; [exact Hn|solve_no_completed].
Qed.

Lemma claude_user_fold_no_completed mid blocks : forall acc,
  no_completed (fst acc) ->
  no_completed (fst (fold_left (Claude._user_block mid) blocks acc)).
Proof.
  induction blocks as [|b bs IH]; intros [out st] Hn; [exact Hn|].
  cbn [fold_left]; apply IH; unfold Claude._user_block.
  destruct b; try exact Hn.
  destruct (negb _); [exact Hn|].
  destruct (nonempty_str _); [|exact Hn].
  destruct (Claude.pending_pop _ _).
  apply no_completed_app; [exact Hn|solve_no_completed].
Qed.

Lemma claude_denials_warning idx ds :
  Forall warning_action (Claude._permission_denials idx ds) /\
  List.length (Claude._permission_denials idx ds) = List.length (filter is_dict ds).
Proof.
  revert idx; induction ds as [|d ds IH]; intros idx; [split; [constructor|reflexivity]|].
  destruct (IH (S idx)) as [IH1 IH2]; cbn [Claude._permission_denials].
  destruct d; cbn; (split; [|try rewrite IH2; reflexivity]); try exact IH1.
  constructor; [split; reflexivity|exact IH1].
Qed.

Lemma claude_denials_no_completed idx ds : no_completed (Claude._permission_denials idx ds).
Proof.
  intros e He; destruct (claude_denials_warning idx ds) as [Hw _].
  rewrite Forall_forall in Hw; specialize (Hw e He); destruct e; [destruct Hw|reflexivity|destruct Hw].
Qed.

(** C6 (as amended).  Codex: a non-fatal [error] record, a
    [turn.rate_limited] record and a completed [error] item (its [type],
    or failing that its [item_type], is ["error"]) with a nonempty string
    id each yield exactly one warning-level completed [ActionEvent] and
    leave the stream open, while such an item without a nonempty string id
    yields nothing and changes nothing; a failing [CompletedEvent]
    comes only from an [error] record whose [fatal] is [true] or absent,
    or from a [turn.failed] record.  Claude: the permission denials of a
    [result] record yield one warning-level completed [ActionEvent] per
    dict denial, and a [CompletedEvent] (the one that ends the stream)
    comes only from a [result] record, failing exactly when its [is_error]
    is truthy; a denial that is not a dict yields nothing. *)
Theorem nonfatal_conditions_warn :
  (forall relc title rt evt s,
     dget evt "type" = JStr "error" -> Codex.is_fatal (dget evt "fatal") = false ->
     exists e s', Codex.handle_event relc title rt evt s = ([Yield e], s', Ok tt) /\
       warning_action e /\ Codex.did_emit_completed s' = Codex.did_emit_completed s) /\
  (forall relc title rt evt s,
     dget evt "type" = JStr "turn.rate_limited" ->
     exists e s', Codex.handle_event relc title rt evt s = ([Yield e], s', Ok tt) /\
       warning_action e /\ Codex.did_emit_completed s' = Codex.did_emit_completed s) /\
  (forall relc title rt evt item id s,
     dget evt "type" = JStr "item.completed" -> dget evt "item" = JObj item ->
     por (dget item "type") (dget item "item_type") = JStr "error" ->
     nonempty_str (dget item "id") = Some id ->
     exists e s', Codex.handle_event relc title rt evt s = ([Yield e], s', Ok tt) /\
       warning_action e /\ Codex.did_emit_completed s' = Codex.did_emit_completed s) /\
  (forall relc title rt evt item s,
     dget evt "type" = JStr "item.completed" -> dget evt "item" = JObj item ->
     por (dget item "type") (dget item "item_type") = JStr "error" ->
     nonempty_str (dget item "id") = None ->
     Codex.handle_event relc title rt evt s = ([], s, Ok tt)) /\
  (forall relc title rt evt s o s' a c,
     Codex.handle_event relc title rt evt s = (o, s', Ok a) ->
     In (Yield (EvCompleted c)) o -> ce_ok c = false ->
     (jeq_str (dget evt "type") "error" && Codex.is_fatal (dget evt "fatal"))
     || jeq_str (dget evt "type") "turn.failed" = true) /\
  (forall relc relp evt title st ds,
     dget evt "type" = JStr "result" ->
     py_iter (por (dget evt "permission_denials") (JArr [])) = Ok ds ->
     Claude.translate_claude_event relc relp evt title st =
       Ok ((Claude._permission_denials 0 ds ++ [Claude._result_completed evt st])%list, st) /\
     Forall warning_action (Claude._permission_denials 0 ds) /\
     List.length (Claude._permission_denials 0 ds) = List.length (filter is_dict ds)) /\
  (forall relc relp evt title st outs st' c,
     Claude.translate_claude_event relc relp evt title st = Ok (outs, st') ->
     In (EvCompleted c) outs ->
     jeq_str (dget evt "type") "result" = true /\
     ce_ok c = negb (truthy (dget evt "is_error"))).
Proof.
  split; [|split; [|split; [|split; [|split; [|split]]]]].
  - intros relc title rt evt s Ht Hf.
    unfold Codex.handle_event, Codex.next_note_id, bind, get, put, ret, yield, emit.
    rewrite Ht, Hf; cbn.
    eexists _, _; split; [reflexivity|split; [split; reflexivity|reflexivity]].
  - intros relc title rt evt s Ht.
    unfold Codex.handle_event, Codex.next_note_id, bind, get, put, ret, yield, emit.
    rewrite Ht; cbn.
    eexists _, _; split; [reflexivity|split; [split; reflexivity|reflexivity]].
  - intros relc title rt evt item id s Ht Hi Hit Hid.
    assert (Ha : Codex.as_item (dget evt "item") = Ok item)
      by (rewrite Hi; destruct item; [discriminate Hit|reflexivity]).
    assert (Htr : Codex.track_answer evt s = ([], s, Ok tt)).
    { unfold Codex.track_answer; rewrite Ht, Ha; unfold bind, lift; cbn -[por].
      rewrite Hit; reflexivity. }
    assert (Hx : Codex.translate_codex_event relc evt title =
      Ok [Codex._action_event completed id warning
            (py_str (por (dget item "message") (JStr "codex item error")))
            [("message", JStr (py_str (por (dget item "message") (JStr "codex item error"))))]
            (Some false)
            (Some (py_str (por (dget item "message") (JStr "codex item error"))))
            (Some level_warning)]).
    { unfold Codex.translate_codex_event; rewrite Ht; cbn - [Codex.as_item Codex._translate_item_event].
      rewrite Ha; cbn [py_bind]; unfold Codex._translate_item_event.
      rewrite Hit, Hid; reflexivity. }
    unfold Codex.handle_event; unfold bind at 1, get; rewrite Ht; cbn - [Codex.track_answer Codex.translate_codex_event].
    unfold bind at 1; rewrite Htr; unfold bind, lift; rewrite Hx; cbn.
    eexists _, _; split; [reflexivity|split; [split; reflexivity|reflexivity]].
  - intros relc title rt evt item s Ht Hi Hit Hid.
    assert (Ha : Codex.as_item (dget evt "item") = Ok item)
      by (rewrite Hi; destruct item; [discriminate Hit|reflexivity]).
    assert (Htr : Codex.track_answer evt s = ([], s, Ok tt)).
    { unfold Codex.track_answer; rewrite Ht, Ha; unfold bind, lift; cbn -[por].
      rewrite Hit; reflexivity. }
    assert (Hx : Codex.translate_codex_event relc evt title = Ok []).
    { unfold Codex.translate_codex_event; rewrite Ht; cbn - [Codex.as_item Codex._translate_item_event].
      rewrite Ha; cbn [py_bind]; unfold Codex._translate_item_event.
      rewrite Hit, Hid; reflexivity. }
    unfold Codex.handle_event; unfold bind at 1, get; rewrite Ht; cbn - [Codex.track_answer Codex.translate_codex_event].
    unfold bind at 1; rewrite Htr; unfold bind, lift; rewrite Hx; reflexivity.
  - intros relc title rt evt s o s' a c H Hin Hok.
    apply in_yields in Hin; unfold Codex.handle_event in H; run_inv.
    destruct (jeq_str _ "error") eqn:E1.
    { destruct (Codex.is_fatal _); [reflexivity|].
      unfold Codex.next_note_id in *; run_inv; cbn in Hin;
        destruct Hin as [Hin|[]]; discriminate Hin. }
    destruct (jeq_str _ "turn.failed"); [reflexivity|].
    exfalso.
    destruct (jeq_str _ "turn.rate_limited").
    { unfold Codex.next_note_id in *; run_inv; cbn in Hin;
        destruct Hin as [Hin|[]]; discriminate Hin. }
    destruct (jeq_str _ "turn.started").
    { run_inv; cbn in Hin; destruct Hin as [Hin|[]]; discriminate Hin. }
    destruct (jeq_str _ "turn.completed").
    { run_inv; cbn in Hin; destruct Hin as [Hin|[]].
      injection Hin as Hin; subst c; discriminate Hok. }
    run_inv.
    match goal with T : Codex.track_answer _ _ = _ |- _ =>
      apply codex_track_answer_spec in T; destruct T as [-> _] end.
    match goal with
    | T : Codex.translate_codex_event _ _ _ = Ok ?outs,
      E : Codex.emit_translated _ ?outs _ = _ |- _ =>
        apply codex_translate_no_completed in T;
        apply (codex_emit_translated_spec _ _ _ _ _ _ T) in E; destruct E as [_ E2]
    end.
    rewrite !yields_app in Hin; cbn in Hin.
    specialize (E2 _ Hin); discriminate E2.
  - intros relc relp evt title st ds Ht Hd.
    destruct (claude_denials_warning 0 ds) as [Hw Hl]; split; [|split; assumption].
    unfold Claude.translate_claude_event; rewrite Ht; cbn - [py_iter].
    rewrite Hd; reflexivity.
  - intros relc relp evt title st outs st' c H Hin.
    unfold Claude.translate_claude_event in H.
    destruct (jeq_str (dget evt "type") "system" && jeq_str (dget evt "subtype") "init").
    { destruct (negb _); inversion H; subst; [destruct Hin|].
      destruct Hin as [Hin|[]]; discriminate Hin. }
    destruct (jeq_str _ "assistant").
    { exfalso; repeat match goal with
      | H : (match ?x with _ => _ end) = _ |- _ => destruct x
      end; inversion H; subst; try destruct Hin.
      match goal with Hf : fold_left (Claude._assistant_block ?a ?b ?m ?p) ?bl ?acc = (outs, st') |- _ =>
        pose proof (claude_assistant_fold_no_completed a b m p bl acc) as N;
        rewrite Hf in N end.
      specialize (N (fun e He => match He with end) _ Hin); discriminate N. }
    destruct (jeq_str _ "user").
    { exfalso; repeat match goal with
      | H : (match ?x with _ => _ end) = _ |- _ => destruct x
      end; inversion H; subst; try destruct Hin.
      match goal with Hf : fold_left (Claude._user_block ?m) ?bl ?acc = (outs, st') |- _ =>
        pose proof (claude_user_fold_no_completed m bl acc) as N;
        rewrite Hf in N end.
      specialize (N (fun e He => match He with end) _ Hin); discriminate N. }
    destruct (jeq_str _ "result") eqn:Er; [|inversion H; subst; destruct Hin].
    destruct (py_iter _) as [ds|]; cbn in H; inversion H; subst.
    apply in_app_or in Hin; destruct Hin as [Hin|[Hin|[]]].
    + pose proof (claude_denials_no_completed 0 ds _ Hin) as N; discriminate N.
    + split; [reflexivity|]; unfold Claude._result_completed in Hin.
      injection Hin as Hin; subst c; reflexivity.
Qed.

(** C6 fails as stated for per-item errors without an id: a codex
    [item.completed] record carrying an [error] item with no [id] yields no
    event at all (the runner logs it at debug level and drops it), so the
    run below reports a success with no warning. *)
Lemma codex_error_item_without_id_dropped :
  let r := Codex._run id_path "codex" None
             [codex_thread "t1";
              codex_item_completed [("type", JStr "error"); ("message", JStr "boom")];
              codex_turn_completed] 0 "" in
  snd r = Ok tt /\
  yields (fst (fst r)) =
    [EvStarted (mkStarted "codex" (mkResumeToken "codex" "t1") "codex" None);
     EvCompleted (mkCompleted "codex" true "" (Some (mkResumeToken "codex" "t1")) None None)] /\
  Forall (fun e => ~ warning_action e) (yields (fst (fst r))).
Proof.
  vm_compute; split; [reflexivity|split; [reflexivity|]].
  repeat constructor; intros [].
Qed.

(* ------------------------------------------------------------------ *)
(** ** The answer of a successful run *)





Lemma jeq_str_true j s : jeq_str j s = true -> j = JStr s.
Proof. destruct j; cbn; try discriminate; intros E; apply String.eqb_eq in E; subst; reflexivity. Qed.



(* ------------------------------------------------------------------ *)
(** ** Tool results with no pending call *)

Lemma nonempty_str_some j s : nonempty_str j = Some s -> j = JStr s /\ s <> "".
Proof.
  destruct j; try discriminate; cbn.
  destruct (String.eqb s0 "") eqn:E; intros H; inversion H; subst.
  split; [reflexivity|intros ->; discriminate E].
Qed.

Lemma pending_pop_absent p k :
  ~ In k (map fst p) -> Claude.pending_pop p k = (None, p).
Proof.
  induction p as [|[k' a'] rest IH]; intros Hn; [reflexivity|]; cbn.
  destruct (String.eqb k k') eqn:E.
  - apply String.eqb_eq in E; subst; exfalso; apply Hn; left; reflexivity.
  - rewrite IH; [reflexivity|intros Hi; apply Hn; right; exact Hi].
Qed.

(** C8: a [tool_result] block of a claude [user] event whose [tool_use_id]
    is a nonempty string with no pending tool call still yields a completed
    [ActionEvent]: a synthetic [tool] action with that id, titled
    "tool result", whose detail records the [tool_use_id]; the pending
    calls are left as they were.  This holds for the block at any point
    of the event's content list, and in particular for an event whose only
    block is that result. *)
Theorem orphan_tool_result_completed :
  (forall mid out st c id,
     dget c "type" = JStr "tool_result" ->
     nonempty_str (dget c "tool_use_id") = Some id ->
     ~ In id (map fst (Claude.pending_actions st)) ->
     exists d ok,
       Claude._user_block mid (out, st) (JObj c) =
         ((out ++ [EvAction (mkActionEvent "claude" (mkAction id tool "tool result" d)
                               completed (Some ok) None None)])%list, st) /\
       dget d "tool_use_id" = JStr id) /\
  (forall relc relp evt title st m c id,
     dget evt "type" = JStr "user" -> dget evt "message" = JObj m ->
     dget m "content" = JArr [JObj c] ->
     dget c "type" = JStr "tool_result" ->
     nonempty_str (dget c "tool_use_id") = Some id ->
     ~ In id (map fst (Claude.pending_actions st)) ->
     exists d ok,
       Claude.translate_claude_event relc relp evt title st =
         Ok ([EvAction (mkActionEvent "claude" (mkAction id tool "tool result" d)
                          completed (Some ok) None None)], st) /\
       dget d "tool_use_id" = JStr id).
Proof.
  assert (Hblock : forall mid out st c id,
     dget c "type" = JStr "tool_result" ->
     nonempty_str (dget c "tool_use_id") = Some id ->
     ~ In id (map fst (Claude.pending_actions st)) ->
     exists d ok,
       Claude._user_block mid (out, st) (JObj c) =
         ((out ++ [EvAction (mkActionEvent "claude" (mkAction id tool "tool result" d)
                               completed (Some ok) None None)])%list, st) /\
       dget d "tool_use_id" = JStr id).
  { intros mid out st c id Ht Hid Hn.
    pose proof (nonempty_str_some _ _ Hid) as [Hj _].
    unfold Claude._user_block; rewrite Ht, Hid; cbn [jeq_str String.eqb negb].
    rewrite (pending_pop_absent _ _ Hn).
    unfold Claude._tool_result_event, Claude._action_event; cbn [action_id kind title detail].
    destruct st as [p lt]; cbn [Claude.pending_actions Claude.last_assistant_text].
    destruct mid as [m|]; [destruct (String.eqb m "")|].
    all: eexists _, _; split; [reflexivity|]; rewrite Hj; reflexivity. }
  split; [exact Hblock|].
  intros relc relp evt title st m c id Ht Hm Hc Htr Hid Hn.
  destruct (Hblock (Claude.py_str_opt (dget m "id")) [] st c id Htr Hid Hn) as (d & ok & E & Hd).
  exists d, ok; split; [|exact Hd].
  unfold Claude.translate_claude_event; rewrite Ht, Hm, Hc; cbn - [Claude._user_block].
  rewrite E; reflexivity.
Qed.

(* ------------------------------------------------------------------ *)
(** ** Serialisation of runs on one session *)

Module SessionLockFacts.
Import SessionLock.

Lemma nth_replace_same {A} (l : list A) i x y :
  nth_error l i = Some y -> nth_error (replace_nth l i x) i = Some x.
Proof.
  revert i; induction l as [|a l IH]; intros [|i] H; cbn in *; try discriminate; auto.
Qed.

Lemma nth_replace_other {A} (l : list A) i j x :
  j <> i -> nth_error (replace_nth l i x) j = nth_error l j.
Proof.
  revert i j; induction l as [|a l IH]; intros [|i] [|j] H; cbn; auto; try lia.
  all: apply IH; lia.
Qed.

(** Looking a run up in the world after thread [i] was replaced by [x]. *)
Lemma nth_replace_cases {A} (l : list A) i j x y r :
  nth_error l i = Some y -> nth_error (replace_nth l i x) j = Some r ->
  (j = i /\ r = x) \/ (j <> i /\ nth_error l j = Some r).
Proof.
  intros Hy Hj; destruct (Nat.eq_dec j i) as [->|Hne].
  - left; rewrite (nth_replace_same _ _ _ _ Hy) in Hj; injection Hj as <-; auto.
  - right; rewrite nth_replace_other in Hj; auto.
Qed.

Lemma Inv_initial w : initial w -> Inv w.
Proof.
  intros [Hh Hr]; rewrite Forall_forall in Hr.
  assert (H0 : forall i r, nth_error (runs w) i = Some r -> pc r = Waiting /\ holds r = None)
    by (intros i r Hi; apply Hr; eapply nth_error_In; exact Hi).
  repeat split.
  - intros i r t Hi Ht; destruct (H0 _ _ Hi) as [_ Hn]; congruence.
  - intros i j r1 r2 t _ Hi _ Ht _; destruct (H0 _ _ Hi) as [_ Hn]; congruence.
  - intros i r t Hi Hp; destruct (H0 _ _ Hi) as [Hw _]; congruence.
  - intros i r Hi _; destruct (H0 _ _ Hi) as [_ Hn]; exact Hn.
Qed.

Ltac lookup_cases H :=
  match type of H with
  | nth_error (replace_nth _ ?i _) ?k = Some ?r =>
      let E := fresh "E" in
      let Hk := fresh "Hk" in
      let Ho := fresh "Ho" in
      match goal with Hy : nth_error _ i = Some _ |- _ =>
        destruct (nth_replace_cases _ _ _ _ _ _ Hy H) as [[Hk E]|[Hk Ho]];
        [subst k r; cbn [holds pc supplied] in *|]
      end
  end.

Lemma Inv_step w w' : Inv w -> step w w' -> Inv w'.
Proof.
  intros (I1 & I2 & I3 & I4) Hs.
  destruct Hs as [w i t Hi Hn|w i Hi|w i t Hi Hn|w i sup h Hi]; unfold Inv; cbn [runs held].
  - repeat split.
    + intros k r t' Hk' Ht; lookup_cases Hk'.
      * left; congruence.
      * right; eapply I1; eassumption.
    + intros k l r1 r2 t' Hkl Hk' Hl' H1 H2; lookup_cases Hk'; lookup_cases Hl';
        try congruence.
      * injection H1 as <-; apply Hn; eapply I1; eassumption.
      * injection H2 as <-; apply Hn; eapply I1; eassumption.
      * eapply I2; [exact Hkl|..]; eassumption.
    + intros k r t' Hk' Hp Hsu; lookup_cases Hk'; [congruence|eapply I3; eassumption].
    + intros k r Hk' Hp; lookup_cases Hk'; [congruence|eapply I4; eassumption].
  - repeat split.
    + intros k r t' Hk' Ht; lookup_cases Hk'; [discriminate|eapply I1; eassumption].
    + intros k l r1 r2 t' Hkl Hk' Hl' H1 H2; lookup_cases Hk'; lookup_cases Hl';
        try congruence; eapply I2; [exact Hkl|..]; eassumption.
    + intros k r t' Hk' Hp Hsu; lookup_cases Hk'; [discriminate|eapply I3; eassumption].
    + intros k r Hk' Hp; lookup_cases Hk'; [congruence|eapply I4; eassumption].
  - repeat split.
    + intros k r t' Hk' Ht; lookup_cases Hk'.
      * left; congruence.
      * right; eapply I1; eassumption.
    + intros k l r1 r2 t' Hkl Hk' Hl' H1 H2; lookup_cases Hk'; lookup_cases Hl';
        try congruence.
      * injection H1 as <-; apply Hn; eapply I1; eassumption.
      * injection H2 as <-; apply Hn; eapply I1; eassumption.
      * eapply I2; [exact Hkl|..]; eassumption.
    + intros k r t' Hk' Hp Hsu; lookup_cases Hk'; [discriminate|eapply I3; eassumption].
    + intros k r Hk' Hp; lookup_cases Hk'; [congruence|eapply I4; eassumption].
  - repeat split.
    + intros k r t' Hk' Ht; lookup_cases Hk'; [discriminate|].
      pose proof (I1 _ _ _ Ho Ht) as Hin.
      destruct h as [t''|]; cbn [release_of]; [|exact Hin].
      apply in_in_remove; [|exact Hin].
      intros <-; eapply (I2 k i); [exact Hk|exact Ho|exact Hi|exact Ht|reflexivity].
    + intros k l r1 r2 t' Hkl Hk' Hl' H1 H2; lookup_cases Hk'; lookup_cases Hl';
        try congruence; eapply I2; [exact Hkl|..]; eassumption.
    + intros k r t' Hk' Hp Hsu; lookup_cases Hk'; [discriminate|eapply I3; eassumption].
    + intros k r Hk' Hp; lookup_cases Hk'; [reflexivity|eapply I4; eassumption].
Qed.

Lemma Inv_reachable w : reachable w -> Inv w.
Proof.
  induction 1 as [w Hi|w w' _ IH Hs]; [apply Inv_initial; exact Hi|].
  eapply Inv_step; eassumption.
Qed.

End SessionLockFacts.

(** C9: in every reachable interleaving of runs, two distinct runs
    supplied with the same resume token [t] are never in flight together,
    and while a run supplied with [t] is in flight the mutex of [t] stays
    in the registry, so a second run with [t] cannot take its
    [start_resumed] step (it blocks) until the first run's [finish]
    releases it, whichever run started first. *)
Theorem same_token_runs_serialized (w : SessionLock.World) :
  SessionLock.reachable w ->
  (forall i j ri rj t, i <> j ->
     nth_error (SessionLock.runs w) i = Some ri ->
     nth_error (SessionLock.runs w) j = Some rj ->
     SessionLock.supplied ri = Some t -> SessionLock.supplied rj = Some t ->
     SessionLock.pc ri = SessionLock.InFlight -> SessionLock.pc rj <> SessionLock.InFlight) /\
  (forall i ri t,
     nth_error (SessionLock.runs w) i = Some ri ->
     SessionLock.supplied ri = Some t -> SessionLock.pc ri = SessionLock.InFlight ->
     In t (SessionLock.held w)).
Proof.
  intros Hr; destruct (SessionLockFacts.Inv_reachable w Hr) as (I1 & I2 & I3 & _); split.
  - intros i j ri rj t Hij Hi Hj Hsi Hsj Hpi Hpj.
    eapply I2; [exact Hij|exact Hi|exact Hj|apply I3 with (i := i); eassumption|].
    apply I3 with (i := j); eassumption.
  - intros i ri t Hi Hs Hp; eapply I1; [exact Hi|]; eapply I3; eassumption.
Qed.

(** C9 on two runs resumed with the same claude token: after the first
    one starts, the world is reachable and the token's mutex is held, so
    the second one waits. *)
Lemma same_token_runs_serialized_witness :
  SessionLock.reachable
    (SessionLock.mkWorld
       [SessionLock.mkThread (Some (mkResumeToken "claude" "s1")) SessionLock.InFlight
          (Some (mkResumeToken "claude" "s1"));
        SessionLock.mkThread (Some (mkResumeToken "claude" "s1")) SessionLock.Waiting None]
       [mkResumeToken "claude" "s1"]) /\
  In (mkResumeToken "claude" "s1")
    (SessionLock.held
       (SessionLock.mkWorld
          [SessionLock.mkThread (Some (mkResumeToken "claude" "s1")) SessionLock.InFlight
             (Some (mkResumeToken "claude" "s1"));
           SessionLock.mkThread (Some (mkResumeToken "claude" "s1")) SessionLock.Waiting None]
          [mkResumeToken "claude" "s1"])).
Proof.
  assert (R0 : SessionLock.reachable
    (SessionLock.mkWorld
       [SessionLock.mkThread (Some (mkResumeToken "claude" "s1")) SessionLock.Waiting None;
        SessionLock.mkThread (Some (mkResumeToken "claude" "s1")) SessionLock.Waiting None] [])).
  { apply SessionLock.reach_init; split; [reflexivity|].
    repeat constructor. }
  eapply SessionLock.reach_step in R0 as R1;
    [|apply SessionLock.start_resumed with (i := 0) (t := mkResumeToken "claude" "s1");
      [reflexivity|intros []]].
  cbn in R1; split; [exact R1|].
  exact (proj2 (same_token_runs_serialized _ R1) 0 _ (mkResumeToken "claude" "s1")
           eq_refl eq_refl eq_refl).
Defined.

(* ------------------------------------------------------------------ *)
(** ** Further properties of the runners' helpers *)

Lemma dlookup_dset d k v k' :
  dlookup (dset d k v) k' = if String.eqb k' k then Some v else dlookup d k'.
Proof.
  induction d as [|[k0 v0] rest IH]; cbn.
  - destruct (String.eqb k' k); reflexivity.
  - destruct (String.eqb k k0) eqn:E; cbn.
    + apply String.eqb_eq in E; subst k0.
      destruct (String.eqb k' k); reflexivity.
    + rewrite IH.
      destruct (String.eqb k' k0) eqn:E0; [|reflexivity].
      apply String.eqb_eq in E0; subst k0.
      destruct (String.eqb k' k) eqn:E1; [|reflexivity].
      apply String.eqb_eq in E1; subst k'; rewrite String.eqb_refl in E; discriminate E.
Qed.

Lemma dget_dset d k v k' :
  dget (dset d k v) k' = if String.eqb k' k then v else dget d k'.
Proof. unfold dget; rewrite dlookup_dset; destruct (String.eqb k' k); reflexivity. Qed.

Lemma join_empty_iff sep parts :
  Forall (fun p => p <> "") parts -> (join sep parts = "" <-> parts = []).
Proof.
  intros H; split; [|intros ->; reflexivity].
  destruct parts as [|p [|q rest]]; cbn; [auto| |].
  - inversion H; subst; intros E; contradiction.
  - inversion H; subst; intros E; destruct p; [contradiction|discriminate E].
Qed.

Lemma filter_nonempty_Forall l :
  Forall (fun p => p <> "") (filter (fun p => negb (String.eqb p "")) l).
Proof.
  induction l as [|p l IH]; cbn; [constructor|].
  destruct (String.eqb p "") eqn:E; cbn; [exact IH|].
  constructor; [intros ->; discriminate E|exact IH].
Qed.

(** X1: [_coerce_comma_list] never returns an empty string: it is [None]
    for [None], for a list with no nonempty rendering and for a value whose
    [str] is empty; on a list of strings it is the comma-join of the
    nonempty ones. *)
Theorem coerce_comma_list_nonempty :
  (forall v s, Claude._coerce_comma_list v = Some s -> s <> "") /\
  (forall l : list string,
     Claude._coerce_comma_list (JArr (map JStr l)) =
       match filter (fun p => negb (String.eqb p "")) l with
       | [] => None
       | ps => Some (join "," ps)
       end).
Proof.
  split.
  - intros v s; unfold Claude._coerce_comma_list.
    assert (L : forall t, (if String.eqb t "" then None else Some t) = Some s -> s <> "").
    { intros t; destruct (String.eqb t "") eqn:E; intros H; [discriminate H|].
      injection H as <-; intros ->; discriminate E. }
    destruct v; [intros H; discriminate H|..]; apply L.
  - intros l; cbn.
    assert (Hm : map py_str (filter (fun it => match it with JNull => false | _ => true end)
                                    (map JStr l)) = l).
    { induction l as [|p l IH]; cbn; [reflexivity|now rewrite IH]. }
    rewrite Hm.
    pose proof (join_empty_iff "," _ (filter_nonempty_Forall l)) as J.
    destruct (filter _ l) as [|p ps] eqn:F; [reflexivity|].
    destruct (String.eqb (join "," (p :: ps)) "") eqn:E; [|reflexivity].
    apply String.eqb_eq, J in E; discriminate E.
Qed.

Lemma py_bind_Ok {A B} (m : PyResult A) (k : A -> PyResult B) r :
  py_bind m k = Ok r -> exists a, m = Ok a /\ k a = Ok r.
Proof. destruct m as [a|e]; cbn; [eauto|discriminate]. Qed.

(** X2: [codex.build_runner]: without a [codex] executable it fails; with
    no [extra_args] the runner passes [-c notify=[]]; an [extra_args]
    value that is not a list of strings, or a truthy [profile] that is not
    a string, is a configuration error; a string [profile] is appended to
    the extra arguments as [--profile p] and becomes the session title. *)
Theorem codex_build_runner_config :
  (forall config path, exists e, Codex.build_runner None config path = Raise e) /\
  (forall cmd config path,
     cmd <> "" -> dget config "extra_args" = JNull -> truthy (dget config "profile") = false ->
     Codex.build_runner (Some cmd) config path =
       Ok (Codex.mkCodexRunner cmd ["-c"; "notify=[]"] "Codex")) /\
  (forall cmd config path,
     cmd <> "" ->
     match dget config "extra_args" with
     | JNull => False | JArr l => existsb (fun j => negb (Codex.is_str j)) l = true | _ => True
     end ->
     exists e, Codex.build_runner (Some cmd) config path = Raise e) /\
  (forall cmd config path r p,
     Codex.build_runner (Some cmd) config path = Ok r -> dget config "profile" = JStr p ->
     p <> "" ->
     exists extra, Codex.extra_args r = (extra ++ ["--profile"; p])%list /\
       Codex.runner_session_title r = p) /\
  (forall cmd config path,
     cmd <> "" -> truthy (dget config "profile") = true -> Codex.is_str (dget config "profile") = false ->
     exists e, Codex.build_runner (Some cmd) config path = Raise e).
Proof.
  assert (Hcmd : forall cmd (A : Type) (f : string -> A) (x : A), cmd <> "" ->
            match cmd with "" => x | _ => f cmd end = f cmd)
    by (intros cmd A f x H; destruct cmd; [contradiction|reflexivity]).
  repeat split.
  - intros; eexists; reflexivity.
  - intros cmd config path Hc He Hp; unfold Codex.build_runner.
    destruct cmd as [|c cs]; [contradiction|].
    rewrite He; cbn [py_bind]; rewrite Hp; reflexivity.
  - intros cmd config path Hc Hx; unfold Codex.build_runner.
    destruct cmd as [|c cs]; [contradiction|].
    destruct (dget config "extra_args"); try contradiction; try (eexists; reflexivity).
    destruct (forallb Codex.is_str items) eqn:F; [|eexists; reflexivity].
    exfalso; rewrite forallb_forall in F; apply existsb_exists in Hx as (j & Hj & Hn).
    rewrite (F j Hj) in Hn; discriminate Hn.
  - intros cmd config path r p H Hp Hne; unfold Codex.build_runner in H.
    destruct cmd as [|c cs]; [discriminate H|].
    apply py_bind_Ok in H as (extra & _ & H).
    rewrite Hp in H; cbn [truthy] in H.
    destruct (String.eqb p "") eqn:E; [apply String.eqb_eq in E; contradiction|].
    cbn in H; injection H as <-; exists extra; split; reflexivity.
  - intros cmd config path Hc Ht Hs; unfold Codex.build_runner.
    destruct cmd as [|c cs]; [contradiction|].
    destruct (match dget config "extra_args" with JNull => _ | _ => _ end) as [extra|e];
      cbn [py_bind]; [|eexists; reflexivity].
    rewrite Ht; destruct (dget config "profile"); try discriminate Hs; eexists; reflexivity.
Qed.

Lemma forallb_is_str_map l :
  forallb Codex.is_str l = true -> l = map JStr (map py_str l).
Proof.
  induction l as [|j l IH]; cbn; [reflexivity|].
  destruct j; try discriminate; cbn; intros H; f_equal; auto.
Qed.

(** X3: the argument vector [codex._run] spawns for a runner made by
    [build_runner]: the command, then the configured extra arguments
    (the default [-c notify=[]] when none are configured), then
    [--profile p] for a nonempty string profile, then [exec --json], and
    last [resume <token> -] or just [-]: the prompt always goes through
    stdin and the global options always precede the [exec] subcommand. *)
Theorem codex_exec_args_layout which config path r tok :
  Codex.build_runner which config path = Ok r ->
  exists cmd extra,
    which = Some cmd /\ cmd <> "" /\
    match dget config "extra_args" with
    | JNull => extra = ["-c"; "notify=[]"]
    | v => v = JArr (map JStr extra)
    end /\
    Codex.exec_args r tok =
      (cmd :: extra
       ++ match dget config "profile" with
          | JStr p => if String.eqb p "" then [] else ["--profile"; p]
          | _ => []
          end
       ++ ["exec"; "--json"]
       ++ match tok with Some t => ["resume"; value t; "-"] | None => ["-"] end)%list.
Proof.
  intros H; unfold Codex.build_runner in H.
  destruct which as [[|c cs]|]; try discriminate H.
  apply py_bind_Ok in H as (extra & Hx & H).
  exists (String c cs), extra; split; [reflexivity|]; split; [discriminate|].
  split.
  - destruct (dget config "extra_args") as [| | | |l|]; try discriminate Hx.
    + injection Hx as <-; reflexivity.
    + destruct (forallb Codex.is_str l) eqn:F; [|discriminate Hx].
      injection Hx as <-; f_equal; apply forallb_is_str_map, F.
  - destruct (dget config "profile") as [| | |p| |]; cbn [truthy] in H;
      try (destruct b); try (destruct (negb (Z.eqb _ 0))); try (destruct items);
      try (destruct fields); try discriminate H;
      try (injection H as <-; unfold Codex.exec_args; cbn; rewrite ?app_nil_r; reflexivity).
    destruct (String.eqb p "") eqn:E; cbn in H; injection H as <-;
      unfold Codex.exec_args; cbn; rewrite ?app_nil_r, <- ?app_assoc; reflexivity.
Qed.

Lemma codex_exec_args_layout_witness :
  Codex.build_runner (Some "codex") [("profile", JStr "fast")] "takopi.toml"
    = Ok (Codex.mkCodexRunner "codex" ["-c"; "notify=[]"; "--profile"; "fast"] "fast") /\
  exists cmd extra,
    Some "codex" = Some cmd /\ cmd <> "" /\
    extra = ["-c"; "notify=[]"] /\
    Codex.exec_args (Codex.mkCodexRunner "codex" ["-c"; "notify=[]"; "--profile"; "fast"] "fast")
      None = (cmd :: extra ++ ["--profile"; "fast"] ++ ["exec"; "--json"] ++ ["-"])%list.
Proof.
  split; [reflexivity|].
  exact (codex_exec_args_layout (Some "codex") [("profile", JStr "fast")] "takopi.toml"
           (Codex.mkCodexRunner "codex" ["-c"; "notify=[]"; "--profile"; "fast"] "fast") None
           eq_refl).
Defined.

Lemma pending_pop_set p k a :
  ~ In k (map fst p) -> Claude.pending_pop (Claude.pending_set p k a) k = (Some a, p).
Proof.
  induction p as [|[k' a'] rest IH]; intros Hn; cbn; [now rewrite String.eqb_refl|].
  destruct (String.eqb k k') eqn:E.
  - apply String.eqb_eq in E; subst; exfalso; apply Hn; left; reflexivity.
  - cbn; rewrite E, IH; [reflexivity|intros Hi; apply Hn; right; exact Hi].
Qed.

Lemma nonempty_str_JStr s : s <> "" -> nonempty_str (JStr s) = Some s.
Proof. intros H; cbn; destruct (String.eqb s "") eqn:E; [apply String.eqb_eq in E; contradiction|reflexivity]. Qed.

Lemma claude_tool_action_some rc rp c m p x :
  nonempty_str (dget c "id") = Some x ->
  exists a, Claude._tool_action rc rp c m p = Some a /\ action_id a = x /\
    (kind a, title a) =
      Claude._tool_kind_and_title rc rp (py_str (por (dget c "name") (JStr "tool")))
        (match dget c "input" with JObj d => d | _ => [] end).
Proof.
  intros H; unfold Claude._tool_action; rewrite H.
  destruct (Claude._tool_kind_and_title _ _ _ _) as [k t]; eexists; split; [reflexivity|].
  split; reflexivity.
Qed.

(** X4: pairing of a Claude tool call with its result: an [assistant]
    message whose content is one [tool_use] block with a nonempty id [x]
    (not already pending) yields a [started] action [x] and records it as
    pending; a following [user] message whose content is one [tool_result]
    block for [x] yields one [completed] event for the same action id, kind
    and title, with [ok] the negation of [is_error is True], and removes
    [x] from the pending actions again. *)
Theorem claude_tool_use_result_pairing rc rp ttl st ea ma c eu mu r x :
  dget ea "type" = JStr "assistant" -> dget ea "message" = JObj ma ->
  dget ma "content" = JArr [JObj c] ->
  dget c "type" = JStr "tool_use" -> dget c "id" = JStr x -> x <> "" ->
  dget eu "type" = JStr "user" -> dget eu "message" = JObj mu ->
  dget mu "content" = JArr [JObj r] ->
  dget r "type" = JStr "tool_result" -> dget r "tool_use_id" = JStr x ->
  ~ In x (map fst (Claude.pending_actions st)) ->
  exists a st1 d st2,
    Claude.translate_claude_event rc rp ea ttl st =
      Ok ([Claude._action_event started a None None None], st1) /\
    Claude.translate_claude_event rc rp eu ttl st1 =
      Ok ([Claude._action_event completed (mkAction x (kind a) (title a) d)
             (Some (negb (match dget r "is_error" with JBool true => true | _ => false end)))
             None None], st2) /\
    action_id a = x /\
    (kind a, title a) =
      Claude._tool_kind_and_title rc rp (py_str (por (dget c "name") (JStr "tool")))
        (match dget c "input" with JObj d => d | _ => [] end) /\
    In x (map fst (Claude.pending_actions st1)) /\
    Claude.pending_actions st2 = Claude.pending_actions st /\
    Claude.last_assistant_text st2 = Claude.last_assistant_text st.
Proof.
  intros Ht Hm Hc Hct Hid Hx Hut Hum Huc Hrt Hrid Hn.
  pose proof (nonempty_str_JStr x Hx) as Hne.
  rewrite <- Hid in Hne.
  destruct (claude_tool_action_some rc rp c (Claude.py_str_opt (dget ma "id"))
              (Claude.py_str_opt (dget ea "parent_tool_use_id")) x Hne) as (a & Ha & Hai & Hkt).
  set (st1 := Claude.mkClaudeStreamState
                (Claude.pending_set (Claude.pending_actions st) x a)
                (Claude.last_assistant_text st)).
  exists a, st1.
  eexists; eexists; split; [|split; [|split; [exact Hai|split; [exact Hkt|split; [|split]]]]].
  - unfold Claude.translate_claude_event; rewrite Ht; cbn [jeq_str String.eqb andb].
    rewrite Hm, Hc; cbn [fold_left].
    unfold Claude._assistant_block; rewrite Hct; cbn [jeq_str String.eqb].
    rewrite Ha, Hai; reflexivity.
  - unfold Claude.translate_claude_event; rewrite Hut; cbn [jeq_str String.eqb andb].
    rewrite Hum, Huc; cbn [fold_left].
    unfold Claude._user_block; rewrite Hrt; cbn [jeq_str String.eqb negb].
    rewrite Hrid, (nonempty_str_JStr x Hx).
    cbn [st1 Claude.pending_actions]; rewrite (pending_pop_set _ _ a Hn).
    unfold Claude._tool_result_event; rewrite Hai; reflexivity.
  - cbn [st1 Claude.pending_actions].
    clear -Hn; induction (Claude.pending_actions st) as [|[k a'] rest IH]; cbn;
      [left; reflexivity|].
    destruct (String.eqb x k) eqn:E; cbn; [left; symmetry; apply String.eqb_eq, E|].
    right; apply IH; intros Hi; apply Hn; right; exact Hi.
  - reflexivity.
  - reflexivity.
Qed.

Lemma claude_tool_use_result_pairing_witness :
  exists a st1 d st2,
    Claude.translate_claude_event id_path id_path (claude_message "assistant" bash_tool_use)
      "claude" Claude.empty_state =
      Ok ([Claude._action_event started a None None None], st1) /\
    Claude.translate_claude_event id_path id_path (claude_message "user" bash_tool_result)
      "claude" st1 =
      Ok ([Claude._action_event completed (mkAction "t1" (kind a) (title a) d)
             (Some (negb false)) None None], st2) /\
    action_id a = "t1" /\
    (kind a, title a) = (command, "ls") /\
    In "t1" (map fst (Claude.pending_actions st1)) /\
    Claude.pending_actions st2 = [] /\
    Claude.last_assistant_text st2 = None.
Proof.
  apply (claude_tool_use_result_pairing id_path id_path "claude" Claude.empty_state
           (claude_message "assistant" bash_tool_use)
           [("id", JStr "m1"); ("content", JArr [JObj bash_tool_use])] bash_tool_use
           (claude_message "user" bash_tool_result)
           [("id", JStr "m1"); ("content", JArr [JObj bash_tool_result])] bash_tool_result "t1");
    try reflexivity; try discriminate; intros [].
Defined.

Lemma str_in_In s l : str_in s l = true <-> In s l.
Proof.
  unfold str_in; rewrite existsb_exists; split.
  - intros (x & Hx & E); apply String.eqb_eq in E; subst; exact Hx.
  - intros H; exists s; split; [exact H|apply String.eqb_refl].
Qed.

(** X5: the kind [_tool_kind_and_title] gives a Claude tool call depends on
    the tool name only: [command] exactly for [Bash], [Shell] and
    [KillShell]; [file_change] exactly for [Edit], [Write],
    [NotebookEdit] and [MultiEdit]; [web_search] exactly for [WebSearch]
    and [WebFetch]; [note] exactly for [TodoWrite], [TodoRead] and
    [AskUserQuestion]; every other name is a plain [tool], and a tool call
    is never classified [warning] or [turn]. *)
Theorem claude_tool_kind_classes rc rp name inp :
  let k := fst (Claude._tool_kind_and_title rc rp name inp) in
  (k = command <-> In name ["Bash"; "Shell"; "KillShell"]) /\
  (k = file_change <-> In name ["Edit"; "Write"; "NotebookEdit"; "MultiEdit"]) /\
  (k = web_search <-> In name ["WebSearch"; "WebFetch"]) /\
  (k = note <-> In name ["TodoWrite"; "TodoRead"; "AskUserQuestion"]) /\
  k <> warning /\ k <> turn.
Proof.
  cbv zeta; unfold Claude._tool_kind_and_title.
  repeat match goal with
         | |- context [if ?b then _ else _] => let E := fresh "E" in destruct b eqn:E
         | |- context [match ?x with Some _ => _ | None => _ end] => destruct x
         end;
  repeat match goal with
         | H : str_in _ _ = true |- _ => apply str_in_In in H
         | H : str_in _ _ = false |- _ =>
             rewrite <- not_true_iff_false, str_in_In in H
         | H : String.eqb _ _ = true |- _ => apply String.eqb_eq in H; subst
         | H : String.eqb _ _ = false |- _ => apply String.eqb_neq in H
         end;
  cbn [fst In] in *; intuition (try discriminate; try congruence).
Qed.

Lemma first_error_message_nonempty l m :
  Claude._first_error_message l = Some m -> m <> "".
Proof.
  induction l as [|j l IH]; cbn; [discriminate|].
  destruct j; auto.
  - destruct (String.eqb s "") eqn:E; [exact IH|].
    intros H; injection H as <-; intros ->; discriminate E.
  - destruct (nonempty_str _) eqn:E; [|exact IH].
    intros H; injection H as <-; apply nonempty_str_some in E; apply E.
Qed.

Lemma extract_error_failed ev :
  truthy (dget ev "is_error") = true ->
  exists m, Claude._extract_error ev = Some m /\ m <> "".
Proof.
  intros Ht; unfold Claude._extract_error.
  destruct (nonempty_str (dget ev "error")) as [e|] eqn:E.
  - apply nonempty_str_some in E; eexists; split; [reflexivity|apply E].
  - destruct (match dget ev "errors" with JArr l => _ | _ => None end) as [m|] eqn:M.
    + eexists; split; [reflexivity|].
      destruct (dget ev "errors"); try discriminate M; exact (first_error_message_nonempty _ _ M).
    + rewrite Ht; eexists; split; [reflexivity|discriminate].
Qed.

(** X6: translating a Claude [result] event leaves the stream state alone
    and yields a list of permission-denial warnings followed by one
    [CompletedEvent]; that event is [ok] exactly when [is_error] is falsy;
    a successful one carries no error, a failed one always carries a
    nonempty error message; it has a resume token exactly when
    [session_id] is truthy. *)
Theorem claude_result_event_translation rc rp ttl ev st out st' :
  dget ev "type" = JStr "result" ->
  Claude.translate_claude_event rc rp ev ttl st = Ok (out, st') ->
  st' = st /\
  exists pre c,
    out = (pre ++ [EvCompleted c])%list /\ Forall warning_action pre /\
    ce_ok c = negb (truthy (dget ev "is_error")) /\
    (ce_ok c = true -> ce_error c = None) /\
    (ce_ok c = false -> exists m, ce_error c = Some m /\ m <> "") /\
    (ce_resume c = None <-> truthy (dget ev "session_id") = false).
Proof.
  intros Ht H; unfold Claude.translate_claude_event in H; rewrite Ht in H; cbn in H.
  apply py_bind_Ok in H as (ds & _ & H); injection H as <- <-.
  split; [reflexivity|].
  eexists; eexists; split; [reflexivity|].
  split; [apply claude_denials_warning|].
  unfold Claude._result_completed; cbn [ce_ok ce_error ce_resume].
  destruct (truthy (dget ev "is_error")) eqn:E; cbn [negb].
  - split; [reflexivity|]; split; [discriminate|]; split; [intros _; apply extract_error_failed, E|].
    destruct (truthy (dget ev "session_id")); split; intros; try discriminate; reflexivity.
  - split; [reflexivity|]; split; [reflexivity|]; split; [discriminate|].
    destruct (truthy (dget ev "session_id")); split; intros; try discriminate; reflexivity.
Qed.

(** X7: a Claude [result] event whose [permission_denials] is [true] or a
    nonzero number makes [translate_claude_event] raise: the loop over
    [permission_denials or []] iterates a non-iterable value. *)
Theorem claude_result_denials_not_iterable rc rp ttl ev st :
  dget ev "type" = JStr "result" ->
  (dget ev "permission_denials" = JBool true \/
   exists z, dget ev "permission_denials" = JInt z /\ z <> 0%Z) ->
  exists e, Claude.translate_claude_event rc rp ev ttl st = Raise e.
Proof.
  intros Ht Hd; unfold Claude.translate_claude_event; rewrite Ht; cbn.
  destruct Hd as [Hd|(z & Hd & Hz)]; rewrite Hd; cbn; [eexists; reflexivity|].
  unfold por; cbn [truthy]; destruct (Z.eqb z 0) eqn:E; [apply Z.eqb_eq in E; contradiction|].
  cbn; eexists; reflexivity.
Qed.

Lemma claude_result_event_translation_witness :
  exists out st',
    Claude.translate_claude_event id_path id_path
      [("type", JStr "result"); ("is_error", JBool true); ("session_id", JStr "s1")]
      "claude" Claude.empty_state = Ok (out, st') /\
    st' = Claude.empty_state /\
    exists pre c, out = (pre ++ [EvCompleted c])%list /\ ce_ok c = false /\
      exists m, ce_error c = Some m /\ m <> "".
Proof.
  do 2 eexists; split; [reflexivity|].
  destruct (claude_result_event_translation id_path id_path "claude"
              [("type", JStr "result"); ("is_error", JBool true); ("session_id", JStr "s1")]
              Claude.empty_state _ _ eq_refl eq_refl)
    as [Hs (pre & c & Ho & _ & Hok & _ & Herr & _)].
  split; [exact Hs|].
  exists pre, c; split; [exact Ho|].
  assert (Hf : ce_ok c = false) by (rewrite Hok; reflexivity).
  split; [exact Hf|exact (Herr Hf)].
Defined.

Lemma claude_result_denials_not_iterable_witness :
  exists e, Claude.translate_claude_event id_path id_path
    [("type", JStr "result"); ("permission_denials", JInt 3)] "claude" Claude.empty_state
    = Raise e.
Proof.
  apply (claude_result_denials_not_iterable id_path id_path "claude"
           [("type", JStr "result"); ("permission_denials", JInt 3)] Claude.empty_state
           eq_refl).
  right; exists 3%Z; split; [reflexivity|discriminate].
Defined.

Lemma usage_fold_dget ev ks u k :
  dget (fold_left (fun usage key =>
                     match dget ev key with JNull => usage | v => dset usage key v end) ks u) k =
  if str_in k ks then match dget ev k with JNull => dget u k | v => v end else dget u k.
Proof.
  revert u; induction ks as [|k0 ks IH]; intros u; cbn [fold_left]; [reflexivity|].
  rewrite IH; unfold str_in; cbn [existsb].
  destruct (String.eqb k k0) eqn:E; cbn [orb].
  - apply String.eqb_eq in E; subst k0.
    destruct (existsb (String.eqb k) ks);
      destruct (dget ev k) eqn:D; try reflexivity; rewrite dget_dset, String.eqb_refl; reflexivity.
  - assert (Hu : dget (match dget ev k0 with JNull => u | v => dset u k0 v end) k = dget u k)
      by (destruct (dget ev k0); try reflexivity; rewrite dget_dset, E; reflexivity).
    rewrite Hu; reflexivity.
Qed.

Lemma dset_nonnull d k v :
  v <> JNull -> Forall (fun kv => snd kv <> JNull) d ->
  Forall (fun kv => snd kv <> JNull) (dset d k v).
Proof.
  intros Hv; induction d as [|[k' v'] rest IH]; intros Hd; cbn.
  - constructor; [exact Hv|constructor].
  - inversion Hd; subst.
    destruct (String.eqb k k'); constructor; auto.
Qed.

(** X8: [_usage_payload] keeps exactly the six usage keys
    ([total_cost_usd], [duration_ms], [duration_api_ms], [num_turns],
    [usage], [modelUsage]) whose value in the result event is not null:
    looking a key up in the payload gives the event's value for those keys
    and nothing for any other key, no stored value is null, and the payload
    is empty (so the completed event has no usage) exactly when all six are
    missing or null. *)
Theorem claude_usage_payload ev :
  let keys := ["total_cost_usd"; "duration_ms"; "duration_api_ms"; "num_turns"; "usage";
               "modelUsage"] in
  (forall k, dget (Claude._usage_payload ev) k = if str_in k keys then dget ev k else JNull) /\
  Forall (fun kv => snd kv <> JNull) (Claude._usage_payload ev) /\
  (Claude._usage_payload ev = [] <-> forall k, In k keys -> dget ev k = JNull).
Proof.
  cbv zeta.
  assert (G : forall k, dget (Claude._usage_payload ev) k =
                if str_in k ["total_cost_usd"; "duration_ms"; "duration_api_ms"; "num_turns";
                             "usage"; "modelUsage"] then dget ev k else JNull).
  { intros k; unfold Claude._usage_payload; rewrite usage_fold_dget.
    destruct (str_in k _); [destruct (dget ev k); reflexivity|reflexivity]. }
  split; [exact G|split].
  - clear G; unfold Claude._usage_payload.
    generalize (@Forall_nil (string * json) (fun kv => snd kv <> JNull)).
    generalize (@nil (string * json)).
    induction ["total_cost_usd"; "duration_ms"; "duration_api_ms"; "num_turns"; "usage";
               "modelUsage"] as [|k ks IH]; intros u Hu; cbn [fold_left]; [exact Hu|].
    apply IH; destruct (dget ev k) eqn:D; try exact Hu; apply dset_nonnull;
      try exact Hu; discriminate.
  - split.
    + intros E k Hk; specialize (G k); rewrite E in G.
      apply str_in_In in Hk; rewrite Hk in G; symmetry; exact G.
    + intros H; unfold Claude._usage_payload; cbn [fold_left].
      repeat (rewrite H by (cbn; tauto)); reflexivity.
Qed.

(** X9: the completed event [_tool_result_event] builds for a Claude tool
    result keeps the action's id, kind and title; it is [ok] unless the
    block's [is_error] is exactly [true]; its detail records the block's
    [tool_use_id], the normalised result as [result_preview], that
    preview's length as [result_len] and [is_error] as the negation of
    [ok], adds a nonempty [message_id], and keeps every other key of the
    action's detail unchanged. *)
Theorem claude_tool_result_event_detail c a mid :
  match Claude._tool_result_event c a mid with
  | EvAction ae =>
      let d := detail (ae_action ae) in
      action_id (ae_action ae) = action_id a /\ kind (ae_action ae) = kind a /\
      title (ae_action ae) = title a /\ ae_phase ae = completed /\
      exists ok s,
        ae_ok ae = Some ok /\
        (ok = false <-> dget c "is_error" = JBool true) /\
        s = Claude._normalize_tool_result (dget c "content") /\
        dget d "result_preview" = JStr s /\
        dget d "result_len" = JInt (Z.of_nat (String.length s)) /\
        dget d "is_error" = JBool (negb ok) /\
        dget d "tool_use_id" = dget c "tool_use_id" /\
        (forall m, mid = Some m -> m <> "" -> dget d "message_id" = JStr m) /\
        (forall k, ~ In k ["tool_use_id"; "result_preview"; "result_len"; "is_error";
                           "message_id"] -> dget d k = dget (detail a) k)
  | _ => False
  end.
Proof.
  unfold Claude._tool_result_event, Claude._action_event; cbn [ae_action ae_phase ae_ok detail action_id kind title].
  split; [reflexivity|split; [reflexivity|split; [reflexivity|split; [reflexivity|]]]].
  set (ie := match dget c "is_error" with JBool true => true | _ => false end).
  set (s := Claude._normalize_tool_result (dget c "content")).
  set (d4 := dset (dset (dset (dset (detail a) "tool_use_id" (dget c "tool_use_id"))
                 "result_preview" (JStr s)) "result_len" (JInt (Z.of_nat (String.length s))))
                 "is_error" (JBool ie)).
  assert (Hd : forall k, k <> "message_id" ->
            dget (match mid with
                  | Some m => if String.eqb m "" then d4 else dset d4 "message_id" (JStr m)
                  | None => d4 end) k = dget d4 k).
  { intros k Hk; destruct mid as [m|]; [|reflexivity].
    destruct (String.eqb m ""); [reflexivity|].
    rewrite dget_dset; destruct (String.eqb k "message_id") eqn:E; [|reflexivity].
    apply String.eqb_eq in E; contradiction. }
  exists (negb ie), s.
  split; [reflexivity|].
  split.
  { unfold ie; destruct (dget c "is_error") as [|[]| | | |]; cbn; split; intros H;
      try discriminate; try reflexivity; congruence. }
  split; [reflexivity|].
  rewrite !Hd by discriminate.
  unfold d4; rewrite !dget_dset; cbn [String.eqb Ascii.eqb Bool.eqb andb].
  split; [reflexivity|split; [reflexivity|split; [rewrite negb_involutive; reflexivity|]]].
  split; [reflexivity|split].
  - intros m -> Hm; destruct (String.eqb m "") eqn:E; [apply String.eqb_eq in E; contradiction|].
    rewrite dget_dset; reflexivity.
  - intros k Hk; rewrite Hd by (intros ->; apply Hk; cbn; tauto).
    unfold d4; rewrite !dget_dset.
    repeat match goal with
           | |- context [String.eqb k ?x] =>
               let E := fresh "E" in destruct (String.eqb k x) eqn:E;
               [apply String.eqb_eq in E; subst; exfalso; apply Hk; cbn; tauto|]
           end; reflexivity.
Qed.

Lemma todo_fold_counts l : forall acc,
  let r := fold_left Codex._todo_step l acc in
  Codex.done r = (Codex.done acc + List.length (filter todo_completed l))%nat /\
  Codex.total r = (Codex.total acc + List.length (filter is_dict l))%nat /\
  (Codex.done acc <= Codex.total acc -> Codex.done r <= Codex.total r)%nat /\
  ((Codex.next_text acc <> None -> Codex.done acc < Codex.total acc) ->
   Codex.done acc <= Codex.total acc ->
   Codex.next_text r <> None -> Codex.done r < Codex.total r)%nat.
Proof.
  induction l as [|j l IH]; intros acc; cbn [fold_left filter List.length]; cbv zeta.
  - rewrite !Nat.add_0_r; repeat split; auto.
  - specialize (IH (Codex._todo_step acc j)); cbv zeta in IH.
    destruct IH as (H1 & H2 & H3 & H4).
    destruct j as [| | | | |it]; cbn [todo_completed is_dict Codex._todo_step] in *;
      try (split; [exact H1|split; [exact H2|split; [exact H3|exact H4]]]).
    cbn [List.length].
    destruct (dget it "completed") as [|[]| | | |];
      try destruct (Codex.next_text acc) as [t|] eqn:N;
      cbn [Codex.done Codex.total Codex.next_text List.length] in *;
      (split; [rewrite H1; lia|split; [rewrite H2; lia|split; [intros Hle; apply H3; lia|]]]);
      intros Hn Hle Hr; rewrite H1, H2 in H4;
      (apply H4 in Hr; [lia| |lia]);
      intros Hx; first [lia | (specialize (Hn ltac:(discriminate)); lia)
                       | (exfalso; apply Hx; reflexivity)].
Qed.

(** X10: [_summarize_todo_list] on a list counts the dict entries as
    [total] and the entries whose [completed] is [True] as [done], so
    [done <= total]; it has a [next_text] only when some entry is still
    open ([done < total]); a value that is not a list gives all zeros.
    [_todo_title] is the bare ["todo"] exactly when [total] is zero. *)
Theorem codex_todo_summary items :
  let s := Codex._summarize_todo_list items in
  Codex.done s = match items with JArr l => List.length (filter todo_completed l) | _ => 0%nat end /\
  Codex.total s = match items with JArr l => List.length (filter is_dict l) | _ => 0%nat end /\
  (Codex.done s <= Codex.total s)%nat /\
  (Codex.next_text s <> None -> Codex.done s < Codex.total s)%nat /\
  (Codex._todo_title s = "todo" <-> Codex.total s = 0%nat).
Proof.
  cbv zeta.
  assert (Ht : forall s, Codex._todo_title s = "todo" <-> Codex.total s = 0%nat).
  { intros s; unfold Codex._todo_title; destruct (Codex.total s); [tauto|].
    split; [|discriminate]; intros H.
    destruct (Codex.next_text s) as [t|]; [destruct (String.eqb t "")|]; discriminate H. }
  destruct items as [| | | |l|]; cbn [Codex._summarize_todo_list];
    try (cbn; repeat split; auto; try discriminate; intros H; exfalso; apply H; reflexivity).
  destruct (todo_fold_counts l (Codex.mkTodoSummary 0 0 None)) as (H1 & H2 & H3 & H4).
  cbn [Codex.done Codex.total Codex.next_text] in *.
  split; [exact H1|split; [exact H2|split; [apply H3; lia|split; [|apply Ht]]]].
  apply H4; [intros H; exfalso; apply H; reflexivity|lia].
Qed.

Lemma change_paths_raise_iff l :
  (exists e, Codex._change_paths l = Raise e) <-> Exists (fun j => is_dict j = false) l.
Proof.
  induction l as [|j l IH]; cbn.
  - split; [intros [e H]; discriminate H|intros H; inversion H].
  - destruct j as [| | | | |c]; cbn [is_dict];
      try (split; [intros _; left; reflexivity|intros _; eexists; reflexivity]).
    destruct (Codex._change_paths l) as [ps|e] eqn:E; cbn [py_bind].
    + split; [intros [e H]; discriminate H|].
      intros H; inversion H as [? ? Hx|? ? Hx]; subst; [discriminate Hx|].
      apply IH in Hx as [e He]; discriminate He.
    + split; [intros _; right; apply IH; eexists; reflexivity|intros _; eexists; reflexivity].
Qed.

Lemma change_paths_none l :
  Forall (fun j => match j with JObj c => truthy (dget c "path") = false | _ => False end) l ->
  Codex._change_paths l = Ok [].
Proof.
  induction l as [|j l IH]; intros H; [reflexivity|].
  inversion H as [|? ? Hj Hl]; subst.
  destruct j as [| | | | |c]; try contradiction; cbn.
  rewrite (IH Hl); cbn; rewrite Hj; reflexivity.
Qed.

(** X11: [_format_change_summary] on a list of changes raises exactly when
    some change is not a dict; when every change is a dict without a
    truthy [path] it is ["files"] for no changes and ["N files"] for
    [N] changes; a missing or null [changes] also gives ["files"]. *)
Theorem codex_format_change_summary item :
  (forall l, dget item "changes" = JArr l ->
     ((exists e, Codex._format_change_summary item = Raise e) <->
      Exists (fun j => is_dict j = false) l) /\
     (Forall (fun j => match j with JObj c => truthy (dget c "path") = false | _ => False end) l ->
      Codex._format_change_summary item =
        Ok (match l with [] => "files" | _ => nat_to_string (List.length l) ++ " files" end))) /\
  (dget item "changes" = JNull -> Codex._format_change_summary item = Ok "files").
Proof.
  split.
  - intros l Hl.
    assert (Hi : py_iter (por (dget item "changes") (JArr [])) = Ok l)
      by (rewrite Hl; destruct l; reflexivity).
    unfold Codex._format_change_summary; rewrite Hi; cbn [py_bind].
    split.
    + rewrite <- change_paths_raise_iff.
      destruct (Codex._change_paths l) as [ps|e]; cbn [py_bind].
      * split; intros [e H]; [destruct ps; discriminate H|discriminate H].
      * split; intros _; eexists; reflexivity.
    + intros H; rewrite (change_paths_none l H); destruct l; reflexivity.
  - intros Hn; unfold Codex._format_change_summary; rewrite Hn; reflexivity.
Qed.

(** X12: a codex [command_execution] item with a nonempty id becomes one
    [command] action titled by its command; on [item.started] and
    [item.updated] it carries no [ok]; on [item.completed] its detail holds
    the exit code and status, and it is [ok] exactly when the status is
    not ["failed"] and an integer (or boolean) exit code is zero. *)
Theorem codex_command_item_events rc item x :
  dget item "type" = JStr "command_execution" -> dget item "id" = JStr x -> x <> "" ->
  let title := rc (py_str (por (dget item "command") (JStr ""))) in
  (forall et, In et ["item.started"; "item.updated"] ->
     Codex._translate_item_event rc et item =
       Ok [Codex._action_event (Codex.phase_of et) x command title [] None None None]) /\
  exists ok,
    Codex._translate_item_event rc "item.completed" item =
      Ok [Codex._action_event completed x command title
            [("exit_code", dget item "exit_code"); ("status", dget item "status")]
            (Some ok) None None] /\
    (ok = true <->
       jeq_str (dget item "status") "failed" = false /\
       match dget item "exit_code" with
       | JInt z => z = 0%Z | JBool b => b = false | _ => True
       end).
Proof.
  intros Ht Hid Hx; cbv zeta.
  assert (Hne := nonempty_str_JStr x Hx).
  split.
  - intros et Het; unfold Codex._translate_item_event; rewrite Ht; cbn.
    rewrite Hid, Hne.
    destruct Het as [<-|[<-|[]]]; reflexivity.
  - eexists; split.
    + unfold Codex._translate_item_event; rewrite Ht; cbn.
      rewrite Hid, Hne; reflexivity.
    + unfold Codex.is_failed.
      destruct (jeq_str (dget item "status") "failed"); cbn [negb andb];
        destruct (dget item "exit_code"); cbn [andb negb]; try destruct b;
        try (rewrite Z.eqb_eq); intuition (try discriminate; try congruence).
Qed.

Lemma codex_command_item_events_witness :
  let item := [("type", JStr "command_execution"); ("id", JStr "c1");
               ("command", JStr "make"); ("exit_code", JInt 2); ("status", JStr "completed")] in
  exists ok,
    Codex._translate_item_event id_path "item.completed" item =
      Ok [Codex._action_event completed "c1" command "make"
            [("exit_code", JInt 2); ("status", JStr "completed")] (Some ok) None None] /\
    (ok = true <-> false = false /\ 2%Z = 0%Z).
Proof.
  cbv zeta.
  exact (proj2 (codex_command_item_events id_path
    [("type", JStr "command_execution"); ("id", JStr "c1");
     ("command", JStr "make"); ("exit_code", JInt 2); ("status", JStr "completed")] "c1"
    eq_refl eq_refl ltac:(discriminate))).
Defined.

(* ------------------------------------------------------------------ *)
(** *** The codex session lock is released exactly when it was acquired *)

Lemma count_release_app a b : count_release (a ++ b) = (count_release a + count_release b)%nat.
Proof. unfold count_release; rewrite filter_app, length_app; reflexivity. Qed.

Lemma count_acquire_app' a b : count_acquire (a ++ b) = (count_acquire a + count_acquire b)%nat.
Proof. unfold count_acquire; rewrite filter_app, length_app; reflexivity. Qed.

(** Either no lock is held, or the lock of the captured session is held. *)
Definition codex_lock_ok (s : Codex.RunState) : Prop :=
  (Codex.session_lock s = None /\ Codex.session_lock_acquired s = false) \/
  (exists t, Codex.session_lock s = Some t /\ Codex.session_lock_acquired s = true /\
             Codex.found_session s <> None).

Definition codex_lock_count (s : Codex.RunState) : nat :=
  match Codex.session_lock s with Some _ => 1 | None => 0 end.

(** A step from state [s]: keeps [codex_lock_ok], releases nothing, and
    acquires exactly when the lock becomes held, never for a resumed run. *)
Definition codex_good_at (exp : option ResumeToken) {A} (s : Codex.RunState)
    (m : RunM Codex.RunState A) : Prop :=
  forall o s' r, m s = (o, s', r) ->
    codex_lock_ok s' /\ count_release o = 0 /\
    (codex_lock_count s + count_acquire o = codex_lock_count s')%nat /\
    (exp <> None -> count_acquire o = 0).

Definition codex_good (exp : option ResumeToken) {A} (m : RunM Codex.RunState A) : Prop :=
  forall s, codex_lock_ok s -> codex_good_at exp s m.

Lemma codex_good_at_bind exp {A B} s (m : RunM Codex.RunState A) (k : A -> RunM _ B) :
  codex_good_at exp s m -> (forall a, codex_good exp (k a)) -> codex_good_at exp s (bind m k).
Proof.
  intros Hm Hk o s' r H; unfold bind in H.
  destruct (m s) as [[o1 s1] [a|e]] eqn:E1.
  - destruct (k a s1) as [[o2 s2] r2] eqn:E2; inversion H; subst.
    destruct (Hm _ _ _ E1) as (L1 & R1 & C1 & N1).
    destruct (Hk a s1 L1 _ _ _ E2) as (L2 & R2 & C2 & N2).
    rewrite count_release_app, count_acquire_app'.
    split; [exact L2|split; [lia|split; [lia|intros Hx; rewrite (N1 Hx), (N2 Hx); reflexivity]]].
  - inversion H; subst; exact (Hm _ _ _ E1).
Qed.

Lemma codex_good_bind exp {A B} (m : RunM Codex.RunState A) (k : A -> RunM _ B) :
  codex_good exp m -> (forall a, codex_good exp (k a)) -> codex_good exp (bind m k).
Proof. intros Hm Hk s L; apply codex_good_at_bind; auto. Qed.

Lemma codex_good_get exp {B} (k : Codex.RunState -> RunM _ B) :
  (forall s, codex_lock_ok s -> codex_good_at exp s (k s)) -> codex_good exp (bind get k).
Proof.
  intros Hk s L o s' r H; unfold bind, get in H; cbn in H.
  destruct (k s s) as [[o2 s2] r2] eqn:E; inversion H; subst; exact (Hk s L _ _ _ E).
Qed.

Lemma codex_good_pure exp {A} (m : RunM Codex.RunState A) :
  (forall s, exists o r, m s = (o, s, r) /\ count_release o = 0 /\ count_acquire o = 0) ->
  codex_good exp m.
Proof.
  intros Hm s L o s' r H; destruct (Hm s) as (o' & r' & E & R & A'); rewrite E in H.
  inversion H; subst; split; [exact L|split; [exact R|split; [lia|intros; exact A']]].
Qed.

Lemma codex_good_ret exp {A} (a : A) : codex_good exp (ret a).
Proof. apply codex_good_pure; intros s; exists [], (Ok a); auto. Qed.

Lemma codex_good_raise exp {A} msg : codex_good exp (@raise _ A msg).
Proof. apply codex_good_pure; intros s; exists [], (Raise msg); auto. Qed.

Lemma codex_good_lift exp {A} (r : PyResult A) : codex_good exp (lift r).
Proof. apply codex_good_pure; intros s; exists [], r; auto. Qed.

Lemma codex_good_yield exp e : codex_good exp (yield e).
Proof. apply codex_good_pure; intros s; exists [Yield e], (Ok tt); auto. Qed.

Lemma codex_good_modify exp (f : Codex.RunState -> Codex.RunState) :
  (forall s, Codex.session_lock (f s) = Codex.session_lock s /\
             Codex.session_lock_acquired (f s) = Codex.session_lock_acquired s /\
             (Codex.found_session s <> None -> Codex.found_session (f s) <> None)) ->
  codex_good exp (modify f).
Proof.
  intros Hf s L o s' r H; unfold modify in H; inversion H; subst.
  destruct (Hf s) as (E1 & E2 & E3); unfold codex_lock_ok, codex_lock_count in *.
  rewrite E1, E2; split; [|split; [reflexivity|split; [cbn; lia|reflexivity]]].
  destruct L as [L|(t & L1 & L2 & L3)]; [left; exact L|right; exists t; auto].
Qed.

Lemma codex_good_next_note_id exp : codex_good exp Codex.next_note_id.
Proof.
  unfold Codex.next_note_id; apply codex_good_get; intros s L.
  apply codex_good_at_bind; [|intros; apply codex_good_ret].
  intros o s' r H; unfold put in H; inversion H; subst.
  split; [exact L|split; [reflexivity|split; [unfold codex_lock_count; cbn; lia|reflexivity]]].
Qed.

Lemma codex_good_at_of exp {A} s (m : RunM Codex.RunState A) :
  codex_lock_ok s -> codex_good exp m -> codex_good_at exp s m.
Proof. intros L H; exact (H s L). Qed.

Ltac to_good L := apply (codex_good_at_of _ _ _ L).

Ltac codex_good_step :=
  lazymatch goal with
  | |- forall _ : unit, _ => intros []
  | |- forall _ : _, codex_good _ _ => intros ?
  | |- forall _ : Codex.RunState, codex_lock_ok _ -> codex_good_at _ _ _ =>
      let s := fresh "s" in let L := fresh "L" in intros s L; to_good L
  | |- codex_good _ (bind get _) => apply codex_good_get
  | |- codex_good _ (bind _ _) => apply codex_good_bind
  | |- codex_good_at _ _ (bind _ _) => apply codex_good_at_bind
  | |- codex_good _ (ret _) => apply codex_good_ret
  | |- codex_good _ (raise _) => apply codex_good_raise
  | |- codex_good _ (lift _) => apply codex_good_lift
  | |- codex_good _ (yield _) => apply codex_good_yield
  | |- codex_good _ Codex.next_note_id => apply codex_good_next_note_id
  | |- codex_good _ (modify _) =>
      apply codex_good_modify; intros ?; cbn; repeat split; auto; intros; discriminate
  | |- codex_good _ _ => assumption
  end.

Lemma codex_good_emit_translated exp outs : codex_good exp (Codex.emit_translated exp outs).
Proof.
  induction outs as [|e rest IH]; cbn [Codex.emit_translated]; [apply codex_good_ret|].
  destruct e as [se|ae|ce]; [|repeat codex_good_step; exact IH|repeat codex_good_step; exact IH].
  apply codex_good_get; intros s L.
  destruct (Codex.found_session s) as [f|] eqn:F; [exact (IH s L)|].
  assert (L0 : Codex.session_lock s = None /\ Codex.session_lock_acquired s = false)
    by (destruct L as [L|(t & _ & _ & Hf)]; [exact L|contradiction]).
  destruct (negb _); [intros o s' r H; apply (codex_good_raise exp _ s L _ _ _ H)|].
  destruct (match exp with Some e => _ | None => false end) eqn:X;
    [intros o s' r H; apply (codex_good_raise exp _ s L _ _ _ H)|].
  destruct exp as [e|].
  - apply codex_good_at_bind; [intros o s' r H; apply (codex_good_ret _ tt s L _ _ _ H)|].
    intros []; repeat codex_good_step.
  - intros o s' r H; unfold bind, emit, modify, yield in H; cbn in H.
    set (s1 := Codex.set_found (st_resume se) (Codex.set_lock (st_resume se) s)) in H.
    assert (L1 : codex_lock_ok s1)
      by (right; exists (st_resume se); cbn; repeat split; discriminate).
    destruct (Codex.emit_translated None rest s1) as [[o2 s2] r2] eqn:E.
    inversion H; subst.
    destruct (IH s1 L1 _ _ _ E) as (L2 & R2 & C2 & N2).
    refine (conj L2 (conj _ (conj _ _))).
    + unfold count_release in *; cbn; exact R2.
    + unfold codex_lock_count, count_acquire in *; cbn in *; rewrite (proj1 L0); lia.
    + intros Hx; contradiction.
Qed.


Lemma codex_good_track_answer exp evt : codex_good exp (Codex.track_answer evt).
Proof.
  unfold Codex.track_answer; destruct (jeq_str _ _); repeat codex_good_step.
  match goal with |- codex_good _ (if ?b then _ else _) => destruct b end;
    [destruct (dget a "text")|]; repeat codex_good_step.
Qed.

Lemma codex_good_handle_event relc title exp evt :
  codex_good exp (Codex.handle_event relc title exp evt).
Proof.
  unfold Codex.handle_event; apply codex_good_get; intros s L.
  to_good L.
  repeat match goal with
         | |- codex_good _ (if ?b then _ else _) => destruct b
         | |- codex_good _ (Codex.track_answer _) => apply codex_good_track_answer
         | |- codex_good _ (Codex.emit_translated _ _) => apply codex_good_emit_translated
         | |- _ => codex_good_step
         end.
Qed.

Lemma codex_good_stream_loop relc title exp lines :
  codex_good exp (Codex.stream_loop relc title exp lines).
Proof.
  induction lines as [|l rest IH]; cbn [Codex.stream_loop]; [apply codex_good_ret|].
  apply codex_good_get; intros s L; to_good L.
  destruct (Codex.did_emit_completed s); [exact IH|].
  destruct (data l); repeat match goal with
                            | |- codex_good _ (Codex.handle_event _ _ _ _) =>
                                apply codex_good_handle_event
                            | |- _ => codex_good_step
                            end.
Qed.

Lemma codex_good_after_exit exp rc stderr : codex_good exp (Codex.after_exit exp rc stderr).
Proof.
  unfold Codex.after_exit; apply codex_good_get; intros s L; to_good L.
  destruct (Codex.did_emit_completed s); [apply codex_good_ret|].
  destruct (negb _); [repeat codex_good_step|].
  destruct (Codex.found_session s); repeat codex_good_step.
Qed.

(** X13: the codex runner's session lock is balanced on every path, also
    when translation raises: [_run] releases the lock as often as it
    acquires it, at most once, and a resumed run (with a resume token)
    neither acquires nor releases it. *)
Theorem codex_run_lock_balanced relc title tok lines rc stderr :
  let o := fst (fst (Codex._run relc title tok lines rc stderr)) in
  count_acquire o = count_release o /\ (count_release o <= 1)%nat /\
  (tok <> None -> count_acquire o = 0%nat).
Proof.
  cbv zeta; unfold Codex._run, with_release.
  assert (G : codex_good tok (Codex.stream_loop relc title tok lines ;;
                              Codex.after_exit tok rc stderr))
    by (apply codex_good_bind; [apply codex_good_stream_loop|intros; apply codex_good_after_exit]).
  assert (L0 : codex_lock_ok Codex.init_run_state) by (left; split; reflexivity).
  destruct ((Codex.stream_loop relc title tok lines ;; Codex.after_exit tok rc stderr)
              Codex.init_run_state) as [[o s'] r] eqn:E.
  destruct (G _ L0 _ _ _ E) as (L & R & C & N).
  unfold codex_lock_count in C; cbn in C.
  destruct L as [(L1 & L2)|(t & L1 & L2 & L3)]; rewrite L1 in *; [|rewrite L2]; cbn [fst].
  - split; [lia|split; [lia|exact N]].
  - rewrite count_release_app, count_acquire_app'; cbn.
    split; [lia|split; [lia|intros Hx; specialize (N Hx); lia]].
Qed.

(* ------------------------------------------------------------------ *)
(** *** The claude session lock is released once when it was acquired *)

Definition claude_lock_ok (s : Claude.RunState) : Prop :=
  (Claude.session_lock s = None /\ Claude.session_lock_acquired s = false) \/
  (exists t, Claude.session_lock s = Some t /\ Claude.session_lock_acquired s = true).

Definition claude_held (s : Claude.RunState) : bool :=
  match Claude.session_lock s with Some _ => true | None => false end.

Definition claude_good_at (exp : option ResumeToken) {A} (s : Claude.RunState)
    (m : RunM Claude.RunState A) : Prop :=
  forall o s' r, m s = (o, s', r) ->
    claude_lock_ok s' /\ count_release o = 0 /\
    (count_acquire o = 0 -> claude_held s' = claude_held s) /\
    (count_acquire o <> 0 -> claude_held s' = true) /\
    (exp <> None -> count_acquire o = 0).

Definition claude_good (exp : option ResumeToken) {A} (m : RunM Claude.RunState A) : Prop :=
  forall s, claude_lock_ok s -> claude_good_at exp s m.

Lemma claude_good_bind exp {A B} (m : RunM Claude.RunState A) (k : A -> RunM _ B) :
  claude_good exp m -> (forall a, claude_good exp (k a)) -> claude_good exp (bind m k).
Proof.
  intros Hm Hk s L o s' r H; unfold bind in H.
  destruct (m s) as [[o1 s1] [a|e]] eqn:E1.
  - destruct (k a s1) as [[o2 s2] r2] eqn:E2; inversion H; subst.
    destruct (Hm s L _ _ _ E1) as (L1 & R1 & Z1 & P1 & N1).
    destruct (Hk a s1 L1 _ _ _ E2) as (L2 & R2 & Z2 & P2 & N2).
    rewrite count_release_app, count_acquire_app'.
    split; [exact L2|split; [lia|split; [|split]]].
    + intros Hz; rewrite Z2, Z1 by lia; reflexivity.
    + intros Hz; destruct (count_acquire o2) eqn:C2; [rewrite Z2 by reflexivity; apply P1; lia|].
      apply P2; discriminate.
    + intros Hx; rewrite (N1 Hx), (N2 Hx); reflexivity.
  - inversion H; subst; exact (Hm s L _ _ _ E1).
Qed.

Lemma claude_good_get exp {B} (k : Claude.RunState -> RunM _ B) :
  (forall s, claude_lock_ok s -> claude_good exp (k s)) -> claude_good exp (bind get k).
Proof.
  intros Hk s L o s' r H; unfold bind, get in H; cbn in H.
  destruct (k s s) as [[o2 s2] r2] eqn:E; inversion H; subst; exact (Hk s L s L _ _ _ E).
Qed.

Lemma claude_good_pure exp {A} (m : RunM Claude.RunState A) :
  (forall s, exists o r, m s = (o, s, r) /\ count_release o = 0 /\ count_acquire o = 0) ->
  claude_good exp m.
Proof.
  intros Hm s L o s' r H; destruct (Hm s) as (o' & r' & E & R & A'); rewrite E in H.
  inversion H; subst.
  split; [exact L|split; [exact R|split; [reflexivity|split; [intros; contradiction|auto]]]].
Qed.

Lemma claude_good_modify exp (f : Claude.RunState -> Claude.RunState) :
  (forall s, Claude.session_lock (f s) = Claude.session_lock s /\
             Claude.session_lock_acquired (f s) = Claude.session_lock_acquired s) ->
  claude_good exp (modify f).
Proof.
  intros Hf s L o s' r H; unfold modify in H; inversion H; subst.
  destruct (Hf s) as (E1 & E2); unfold claude_lock_ok, claude_held in *.
  rewrite E1, E2; split; [exact L|split; [reflexivity|split; [reflexivity|split]]];
    [intros C; contradiction C; reflexivity|intros; reflexivity].
Qed.

Lemma claude_good_next_note_id exp : claude_good exp Claude.next_note_id.
Proof.
  intros s L o s' r H; cbv [Claude.next_note_id bind get put ret] in H.
  inversion H; subst.
  split; [exact L|split; [reflexivity|split; [reflexivity|split; [intros C; contradiction C; reflexivity|auto]]]].
Qed.

Ltac claude_good_step :=
  lazymatch goal with
  | |- forall _ : unit, _ => intros []
  | |- forall _ : Claude.RunState, claude_lock_ok _ -> _ =>
      let s := fresh "s" in let L := fresh "L" in intros s L
  | |- forall _ : _, claude_good _ _ => intros ?
  | |- claude_good _ (bind get _) => apply claude_good_get
  | |- claude_good _ (bind _ _) => apply claude_good_bind
  | |- claude_good _ Claude.next_note_id => apply claude_good_next_note_id
  | |- claude_good _ (modify _) =>
      apply claude_good_modify; intros ?; cbn; split; reflexivity
  | |- claude_good _ (if ?b then _ else _) => destruct b
  | |- claude_good _ (match ?x with Some _ => _ | None => _ end) => destruct x
  | |- claude_good _ _ =>
      first [ assumption
            | apply claude_good_pure; intros ?; eexists; eexists; split; [reflexivity|];
              split; reflexivity ]
  end.

Lemma claude_good_emit_translated exp outs : claude_good exp (Claude.emit_translated exp outs).
Proof.
  induction outs as [|e rest IH]; cbn [Claude.emit_translated].
  - repeat claude_good_step.
  - destruct e as [se|ae|ce]; [|repeat claude_good_step|repeat claude_good_step].
    destruct (negb _); [repeat claude_good_step|].
    destruct (match exp with Some e => _ | None => false end) eqn:X; [repeat claude_good_step|].
    destruct exp as [e|].
    + apply claude_good_bind; [repeat claude_good_step|]; repeat claude_good_step.
    + intros s L o s' r H; unfold bind, emit, modify, yield in H; cbn in H.
      set (s1 := Claude.set_found (st_resume se) (Claude.set_lock (st_resume se) s)) in H.
      assert (L1 : claude_lock_ok s1) by (right; exists (st_resume se); split; reflexivity).
      destruct (Claude.emit_translated None rest s1) as [[o2 s2] r2] eqn:E.
      inversion H; subst.
      destruct (IH s1 L1 _ _ _ E) as (L2 & R2 & Z2 & P2 & N2).
      refine (conj L2 (conj _ (conj _ (conj _ _)))).
      * unfold count_release in *; cbn; exact R2.
      * intros C; discriminate C.
      * intros _; destruct (count_acquire o2) eqn:C2; [rewrite Z2 by reflexivity; reflexivity|].
        apply P2; discriminate.
      * intros Hx; contradiction.
Qed.

Lemma claude_good_stream_loop rc rp title exp lines :
  claude_good exp (Claude.stream_loop rc rp title exp lines).
Proof.
  induction lines as [|l rest IH]; cbn [Claude.stream_loop]; [repeat claude_good_step|].
  apply claude_good_get; intros s L.
  destruct (Claude.did_emit_completed s); [exact IH|].
  destruct (data l); repeat match goal with
                            | |- claude_good _ (Claude.emit_translated _ _) =>
                                apply claude_good_emit_translated
                            | |- _ => claude_good_step
                            end.
Qed.

Lemma claude_good_after_exit exp rc stderr : claude_good exp (Claude.after_exit exp rc stderr).
Proof. unfold Claude.after_exit; repeat claude_good_step. Qed.

(** X14: the claude runner releases the session lock exactly once when it
    acquired it at least once, and not at all otherwise, on every path,
    also when translation raises; a resumed run (with a resume token)
    neither acquires nor releases it.  Each further [init] event of a new
    run acquires again, so acquisitions can outnumber the one release. *)
Theorem claude_run_lock_release rc rp title tok lines code stderr :
  let o := fst (fst (Claude._run rc rp title tok lines code stderr)) in
  count_release o = Nat.min 1 (count_acquire o) /\
  (tok <> None -> count_acquire o = 0%nat).
Proof.
  cbv zeta; unfold Claude._run, with_release.
  assert (G : claude_good tok (Claude.stream_loop rc rp title tok lines ;;
                               Claude.after_exit tok code stderr))
    by (apply claude_good_bind; [apply claude_good_stream_loop|intros; apply claude_good_after_exit]).
  assert (L0 : claude_lock_ok Claude.init_run_state) by (left; split; reflexivity).
  destruct ((Claude.stream_loop rc rp title tok lines ;; Claude.after_exit tok code stderr)
              Claude.init_run_state) as [[o s'] r] eqn:E.
  destruct (G _ L0 _ _ _ E) as (L & R & Z & P & N).
  unfold claude_held in Z, P; cbn in Z.
  destruct L as [(L1 & L2)|(t & L1 & L2)]; rewrite L1 in *; [|rewrite L2]; cbn [fst].
  - destruct (count_acquire o) eqn:C; [|specialize (P ltac:(discriminate)); discriminate P].
    split; [rewrite R; reflexivity|intros; reflexivity].
  - rewrite count_release_app, count_acquire_app'; cbn.
    destruct (count_acquire o) eqn:C; [specialize (Z eq_refl); discriminate Z|].
    split; [rewrite R; cbn; lia|intros Hx; specialize (N Hx); lia].
Qed.

(** X15: once a run has emitted its [CompletedEvent], every further stdout
    line is ignored by both runners: the rest of the stream loop yields
    nothing, acquires nothing, leaves the state unchanged and cannot
    raise, whatever the lines contain. *)
Theorem lines_after_completed_ignored :
  (forall rc rp title tok lines s, Claude.did_emit_completed s = true ->
     Claude.stream_loop rc rp title tok lines s = ([], s, Ok tt)) /\
  (forall relc title tok lines s, Codex.did_emit_completed s = true ->
     Codex.stream_loop relc title tok lines s = ([], s, Ok tt)).
Proof.
  split.
  - intros rc rp title tok lines s Hd; induction lines as [|l rest IH]; [reflexivity|].
    cbn [Claude.stream_loop]; unfold bind at 1, get; rewrite Hd, IH; reflexivity.
  - intros relc title tok lines s Hd; induction lines as [|l rest IH]; [reflexivity|].
    cbn [Codex.stream_loop]; unfold bind at 1, get; rewrite Hd, IH; reflexivity.
Qed.

(** X16: a stdout line that is not valid JSON, read before completion, is
    reported by both runners as one failed [warning] note that carries the
    line (claude's [json_line.raw], codex's [json_line.line]) and a fresh
    note id; the loop then carries on with the next
    line from the same state apart from the note counter. *)
Theorem invalid_json_line_noted :
  (forall rc rp title tok rw ln rest s, Claude.did_emit_completed s = false ->
     let n := S (Claude.note_seq s) in
     let s1 := Claude.mkRunState (Claude.session_lock s) (Claude.session_lock_acquired s)
                 (Claude.did_emit_completed s) n (Claude.state s) (Claude.found_session s) in
     Claude.stream_loop rc rp title tok (mkJsonLine rw ln None :: rest) s =
       let '(o, s', r) := Claude.stream_loop rc rp title tok rest s1 in
       (Yield (Claude._note_completed ("claude.note." ++ nat_to_string n)
                 "invalid JSON from claude; ignoring line" false [("line", JStr rw)]) :: o,
        s', r)) /\
  (forall relc title tok rw ln rest s, Codex.did_emit_completed s = false ->
     let n := S (Codex.note_seq s) in
     let s1 := Codex.mkRunState (Codex.session_lock s) (Codex.session_lock_acquired s)
                 (Codex.found_session s) (Codex.final_answer s) n
                 (Codex.did_emit_completed s) (Codex.turn_index s) in
     Codex.stream_loop relc title tok (mkJsonLine rw ln None :: rest) s =
       let '(o, s', r) := Codex.stream_loop relc title tok rest s1 in
       (Yield (Codex._note_completed ("codex.note." ++ nat_to_string n)
                 "invalid JSON from codex; ignoring line" false [("line", JStr ln)]) :: o,
        s', r)).
Proof.
  split.
  - intros rc rp title tok rw ln rest [lk acq did ns st fs] Hd; cbn in Hd; subst did; cbv zeta.
    cbn [Claude.stream_loop data]; cbv [bind get put ret yield emit Claude.next_note_id].
    cbn [Claude.did_emit_completed Claude.session_lock Claude.session_lock_acquired
         Claude.note_seq Claude.state Claude.found_session raw line].
    destruct (Claude.stream_loop rc rp title tok rest (Claude.mkRunState lk acq false (S ns) st fs))
      as [[o s'] res]; reflexivity.
  - intros relc title tok rw ln rest [lk acq fs fa ns did ti] Hd; cbn in Hd; subst did; cbv zeta.
    cbn [Codex.stream_loop data]; cbv [bind get put ret yield emit Codex.next_note_id].
    cbn [Codex.did_emit_completed Codex.session_lock Codex.session_lock_acquired
         Codex.note_seq Codex.found_session Codex.final_answer Codex.turn_index line].
    destruct (Codex.stream_loop relc title tok rest (Codex.mkRunState lk acq fs fa (S ns) false ti))
      as [[o s'] res]; reflexivity.
Qed.

(** X17: codex [turn.started] events are numbered in order: a run of [n]
    such lines read before completion yields exactly the started [turn]
    actions [turn_i], [turn_(i+1)], ..., [turn_(i+n-1)] (with [i] the
    current turn counter) and nothing else, and advances the counter by [n]
    without completing the run. *)
Theorem codex_turn_started_numbering relc title tok lines s :
  Codex.did_emit_completed s = false ->
  Forall (fun l => exists evt, data l = Some evt /\ dget evt "type" = JStr "turn.started") lines ->
  exists s',
    Codex.stream_loop relc title tok lines s =
      (map (fun i => Yield (Codex._action_event started
                              ("turn_" ++ nat_to_string (Codex.turn_index s + i)) turn
                              "turn started" [] None None None))
           (seq 0 (List.length lines)), s', Ok tt) /\
    Codex.turn_index s' = (Codex.turn_index s + List.length lines)%nat /\
    Codex.did_emit_completed s' = false.
Proof.
  revert s; induction lines as [|l rest IH]; intros s Hd Hl.
  - exists s; rewrite Nat.add_0_r; auto.
  - inversion Hl as [|? ? (evt & Hdata & Ht) Hr]; subst.
    set (s1 := Codex.bump_turn s).
    destruct (IH s1 Hd Hr) as (s' & E & Ti & D).
    exists s'; split; [|split; [unfold s1 in Ti; cbn in Ti |- *; lia|exact D]].
    cbn [Codex.stream_loop]; unfold bind at 1, get; rewrite Hd, Hdata.
    unfold Codex.handle_event.
    cbv [bind get modify yield emit ret].
    rewrite Ht; cbn [jeq_str String.eqb Ascii.eqb Bool.eqb andb].
    fold s1; rewrite E; cbn [List.length seq map app].
    rewrite Nat.add_0_r; f_equal; f_equal.
    rewrite <- seq_shift, map_map; f_equal.
    apply map_ext; intros i; cbn [s1 Codex.bump_turn Codex.turn_index].
    rewrite Nat.add_succ_r; reflexivity.
Qed.

Lemma codex_turn_started_numbering_witness :
  let l := mkJsonLine "" "" (Some [("type", JStr "turn.started")]) in
  exists s',
    Codex.stream_loop id_path "Codex" None [l; l] Codex.init_run_state =
      (map (fun i => Yield (Codex._action_event started ("turn_" ++ nat_to_string (0 + i)) turn
                              "turn started" [] None None None))
           (seq 0 2), s', Ok tt) /\
    Codex.turn_index s' = 2%nat /\ Codex.did_emit_completed s' = false.
Proof.
  cbv zeta.
  apply (codex_turn_started_numbering id_path "Codex" None
           [mkJsonLine "" "" (Some [("type", JStr "turn.started")]);
            mkJsonLine "" "" (Some [("type", JStr "turn.started")])] Codex.init_run_state eq_refl).
  repeat constructor; eexists; split; reflexivity.
Defined.

(** X18: [_summarize_tool_result] is [None] for anything but a dict, and
    for a dict exactly when its [content] is missing or null and it has
    neither a [structured_content] nor a [structured] key; a list
    [content] is summarised by its length as [content_blocks], and a
    [structured_content] key (checked before [structured]) gives
    [has_structured] as whether its value is non-null. *)
Theorem codex_summarize_tool_result :
  (forall j, is_dict j = false -> Codex._summarize_tool_result j = None) /\
  (forall r, Codex._summarize_tool_result (JObj r) = None <->
     dget r "content" = JNull /\ dmem r "structured_content" = false /\
     dmem r "structured" = false) /\
  (forall r l, dget r "content" = JArr l ->
     exists sm, Codex._summarize_tool_result (JObj r) = Some sm /\
       dget sm "content_blocks" = JInt (Z.of_nat (List.length l))) /\
  (forall r sm, dmem r "structured_content" = true ->
     Codex._summarize_tool_result (JObj r) = Some sm ->
     dget sm "has_structured" =
       JBool (match dget r "structured_content" with JNull => false | _ => true end)).
Proof.
  split; [intros j H; destruct j; try reflexivity; discriminate H|].
  split; [|split].
  - intros r; cbn [Codex._summarize_tool_result].
    destruct (dmem r "structured_content") eqn:S1; [|destruct (dmem r "structured") eqn:S2];
      destruct (dget r "content") eqn:C; cbn; split; intros H;
      try discriminate H; try (destruct H as (H1 & H2 & H3); discriminate); auto.
  - intros r l Hc; cbn [Codex._summarize_tool_result]; rewrite Hc.
    destruct (if dmem r "structured_content" then _ else _) as [k|]; cbn.
    + eexists; split; [reflexivity|reflexivity].
    + eexists; split; [reflexivity|reflexivity].
  - intros r sm Hs H; cbn [Codex._summarize_tool_result] in H; rewrite Hs in H.
    match type of H with
    | match ?x with [] => _ | _ :: _ => _ end = _ => destruct x as [|p l] eqn:E
    end; [discriminate H|].
    injection H as <-; rewrite <- E, dget_dset; reflexivity.
Qed.

(** X19: [_tool_action] drops a Claude [tool_use] block exactly when its
    [id] is not a nonempty string; otherwise the action's detail records
    the tool name, the nonempty message id and parent tool-use id it was
    given, and, for a [file_change] tool call, a [changes] entry
    [[{path, kind: update}]] exactly when the tool input names a path. *)
Theorem claude_tool_action_detail rc rp c m p :
  (Claude._tool_action rc rp c m p = None <-> nonempty_str (dget c "id") = None) /\
  forall a, Claude._tool_action rc rp c m p = Some a ->
    let inp := match dget c "input" with JObj d => d | _ => [] end in
    dget (detail a) "name" = JStr (py_str (por (dget c "name") (JStr "tool"))) /\
    dget (detail a) "input" = JObj inp /\
    (forall mid, m = Some mid -> mid <> "" -> dget (detail a) "message_id" = JStr mid) /\
    (forall pid, p = Some pid -> pid <> "" -> dget (detail a) "parent_tool_use_id" = JStr pid) /\
    dget (detail a) "changes" =
      match kind a, Claude._tool_input_path inp with
      | file_change, Some path => JArr [JObj [("path", JStr path); ("kind", JStr "update")]]
      | _, _ => JNull
      end.
Proof.
  unfold Claude._tool_action.
  destruct (nonempty_str (dget c "id")) as [x|]; [|split; [tauto|intros a H; discriminate H]].
  destruct (Claude._tool_kind_and_title _ _ _ _) as [k t].
  split; [split; intros H; discriminate H|].
  intros a H; injection H as <-; cbv zeta; cbn [detail kind].
  set (inp := match dget c "input" with JObj d => d | _ => [] end).
  set (d1 := match m with Some mm => if String.eqb mm "" then _ else _ | None => _ end).
  set (d2 := match p with Some pp => if String.eqb pp "" then d1 else _ | None => d1 end).
  assert (G1 : forall key, key <> "message_id" ->
            dget d1 key = dget [("name", JStr (py_str (por (dget c "name") (JStr "tool"))));
                                ("input", JObj inp)] key).
  { intros key Hk; unfold d1; destruct m as [mm|]; [|reflexivity].
    destruct (String.eqb mm ""); [reflexivity|].
    unfold dget; cbn [dlookup].
    destruct (String.eqb key "name"); [reflexivity|].
    destruct (String.eqb key "input"); [reflexivity|].
    destruct (String.eqb key "message_id") eqn:E; [|reflexivity].
    apply String.eqb_eq in E; contradiction. }
  assert (G2 : forall key, key <> "parent_tool_use_id" -> dget d2 key = dget d1 key).
  { intros key Hk; unfold d2; destruct p as [pp|]; [|reflexivity].
    destruct (String.eqb pp ""); [reflexivity|].
    rewrite dget_dset; destruct (String.eqb key "parent_tool_use_id") eqn:E; [|reflexivity].
    apply String.eqb_eq in E; contradiction. }
  assert (G3 : forall key, key <> "changes" ->
            dget (match k with
                  | file_change => match Claude._tool_input_path inp with
                                   | Some path => dset d2 "changes" (JArr [JObj [("path", JStr path);
                                                   ("kind", JStr "update")]])
                                   | None => d2 end
                  | _ => d2 end) key = dget d2 key).
  { intros key Hk; destruct k; try reflexivity.
    destruct (Claude._tool_input_path inp); [|reflexivity].
    rewrite dget_dset; destruct (String.eqb key "changes") eqn:E; [|reflexivity].
    apply String.eqb_eq in E; contradiction. }
  split; [rewrite G3, G2, G1 by discriminate; reflexivity|].
  split; [rewrite G3, G2, G1 by discriminate; reflexivity|].
  split.
  { intros mid -> Hm; rewrite G3, G2 by discriminate; unfold d1.
    destruct (String.eqb mid "") eqn:E; [apply String.eqb_eq in E; contradiction|].
    reflexivity. }
  split.
  { intros pid -> Hp; rewrite G3 by discriminate; unfold d2.
    destruct (String.eqb pid "") eqn:E; [apply String.eqb_eq in E; contradiction|].
    rewrite dget_dset; reflexivity. }
  assert (D2 : dget d2 "changes" = JNull) by (rewrite G2, G1 by discriminate; reflexivity).
  destruct k; try exact D2.
  destruct (Claude._tool_input_path inp); [rewrite dget_dset; reflexivity|exact D2].
Qed.

(** X20: [_short_tool_name] is ["tool"] when neither [server] nor [tool]
    is truthy, the single truthy one when only one is a nonempty string,
    ["server.tool"] when both are nonempty strings, and raises when a
    truthy [server] or [tool] is not a string. *)
Theorem codex_short_tool_name item :
  (truthy (dget item "server") = false -> truthy (dget item "tool") = false ->
   Codex._short_tool_name item = Ok "tool") /\
  (forall sv t, dget item "server" = JStr sv -> dget item "tool" = JStr t ->
   sv <> "" -> t <> "" -> Codex._short_tool_name item = Ok (sv ++ "." ++ t)) /\
  (forall t, truthy (dget item "server") = false -> dget item "tool" = JStr t -> t <> "" ->
   Codex._short_tool_name item = Ok t) /\
  (forall sv, dget item "server" = JStr sv -> sv <> "" -> truthy (dget item "tool") = false ->
   Codex._short_tool_name item = Ok sv) /\
  ((truthy (dget item "server") = true /\ Codex.is_str (dget item "server") = false \/
    truthy (dget item "tool") = true /\ Codex.is_str (dget item "tool") = false) ->
   exists e, Codex._short_tool_name item = Raise e).
Proof.
  assert (NE : forall s, s <> "" -> String.eqb s "" = false)
    by (intros s H; apply String.eqb_neq, H).
  unfold Codex._short_tool_name; repeat split.
  - intros H1 H2; cbn [filter]; rewrite H1, H2; reflexivity.
  - intros sv t Hs Ht Hsv Htv; cbn [filter]; rewrite Hs, Ht; cbn [truthy].
    rewrite (NE _ Hsv), (NE _ Htv); cbn [negb forallb andb map py_str join].
    destruct (String.eqb (sv ++ "." ++ t) "") eqn:E; [|reflexivity].
    apply String.eqb_eq in E; destruct sv; [contradiction|discriminate E].
  - intros t H1 Ht Htv; cbn [filter]; rewrite H1, Ht; cbn [truthy].
    rewrite (NE _ Htv); cbn; rewrite (NE _ Htv); reflexivity.
  - intros sv Hs Hsv H2; cbn [filter]; rewrite Hs, H2; cbn [truthy].
    rewrite (NE _ Hsv); cbn; rewrite (NE _ Hsv); reflexivity.
  - intros H.
    set (f := fun p => match p with JStr _ => true | _ => false end).
    assert (F : forallb f (filter truthy [dget item "server"; dget item "tool"]) = false).
    { destruct (forallb f _) eqn:E; [|reflexivity].
      rewrite forallb_forall in E.
      destruct H as [(H1 & H2)|(H1 & H2)];
        [specialize (E (dget item "server")) | specialize (E (dget item "tool"))];
        unfold Codex.is_str in H2;
        (assert (E' : f _ = true) by (apply E, filter_In; split;
           [first [left; reflexivity | right; left; reflexivity] | exact H1]));
        unfold f in E'; congruence. }
    fold f; rewrite F; eexists; reflexivity.
Qed.


Lemma dec_aux_nonempty f n acc : acc <> "" -> dec_aux f n acc <> "".
Proof.
  revert n acc; induction f as [|f IH]; intros n acc H; cbn; [exact H|].
  destruct (Z.eqb (n / 10) 0); [discriminate|apply IH; discriminate].
Qed.

Lemma z_to_string_nonempty z : z_to_string z <> "".
Proof.
  unfold z_to_string; destruct (Z.ltb z 0); [discriminate|].
  cbn [dec_aux]; destruct (Z.eqb (Z.abs z / 10) 0); [discriminate|].
  apply dec_aux_nonempty; discriminate.
Qed.

Lemma py_str_truthy_nonempty j : truthy j = true -> py_str j <> "".
Proof.
  destruct j as [|b|z|s|l|d]; cbn; try discriminate.
  - destruct b; discriminate.
  - intros _; apply z_to_string_nonempty.
  - intros H E; subst; discriminate H.
Qed.

Lemma dmem_dset d k v k' :
  dmem (dset d k v) k' = String.eqb k' k || dmem d k'.
Proof. unfold dmem; rewrite dlookup_dset; destruct (String.eqb k' k); reflexivity. Qed.

(** X21: [_translate_item_event] yields no event for an item whose [type]
    (or [item_type]) is falsy, for an agent or assistant message, for an
    item whose [id] is not a nonempty string, and for the started and
    updated phases of [error] and [file_change] items. *)
Theorem codex_item_events_dropped rc etype item :
  let ty := por (dget item "type") (dget item "item_type") in
  (truthy ty = false -> Codex._translate_item_event rc etype item = Ok []) /\
  (jeq_str ty "agent_message" = true \/ jeq_str ty "assistant_message" = true ->
   Codex._translate_item_event rc etype item = Ok []) /\
  (nonempty_str (dget item "id") = None -> Codex._translate_item_event rc etype item = Ok []) /\
  (ty = JStr "error" \/ ty = JStr "file_change" -> Codex.phase_of etype <> completed ->
   Codex._translate_item_event rc etype item = Ok []).
Proof.
  intros ty; unfold Codex._translate_item_event; cbv zeta; fold ty.
  set (ph := Codex.phase_of etype); clearbody ty ph.
  split; [|split; [|split]].
  - intros H; destruct (jeq_str ty "assistant_message") eqn:E.
    + apply jeq_str_true in E; subst ty; discriminate H.
    + rewrite H; reflexivity.
  - intros H; destruct (jeq_str ty "assistant_message") eqn:E.
    + reflexivity.
    + destruct H as [H|H]; [|discriminate H].
      apply jeq_str_true in H; subst ty; reflexivity.
  - intros H; destruct (negb (truthy _)); [reflexivity|].
    destruct (jeq_str _ "agent_message"); [reflexivity|].
    rewrite H; reflexivity.
  - intros Hty Hph; destruct Hty as [->| ->]; cbn;
      (destruct (nonempty_str (dget item "id")); [|reflexivity]);
      destruct ph; solve [reflexivity | contradiction].
Qed.

(** X22: on completion, an [error] item with a nonempty string [id] becomes
    one failed warning action whose title, detail message and message are
    [str(item["message"] or "codex item error")], which is never empty. *)
Theorem codex_error_item_event rc item x :
  por (dget item "type") (dget item "item_type") = JStr "error" ->
  dget item "id" = JStr x -> x <> "" ->
  let m := py_str (por (dget item "message") (JStr "codex item error")) in
  Codex._translate_item_event rc "item.completed" item =
    Ok [Codex._action_event completed x warning m [("message", JStr m)]
          (Some false) (Some m) (Some level_warning)] /\
  m <> "".
Proof.
  intros Hty Hid Hx m; split.
  - unfold Codex._translate_item_event; cbv zeta; rewrite Hty; cbn.
    rewrite Hid, (nonempty_str_JStr x Hx); reflexivity.
  - unfold m, por; destruct (truthy (dget item "message")) eqn:T.
    + apply py_str_truthy_nonempty, T.
    + discriminate.
Qed.

Lemma codex_error_item_event_witness :
  let item := [("type", JStr "error"); ("id", JStr "e1")] in
  Codex._translate_item_event id_path "item.completed" item =
    Ok [Codex._action_event completed "e1" warning "codex item error"
          [("message", JStr "codex item error")]
          (Some false) (Some "codex item error") (Some level_warning)] /\
  "codex item error" <> "".
Proof.
  cbv zeta.
  exact (codex_error_item_event id_path [("type", JStr "error"); ("id", JStr "e1")] "e1"
           eq_refl eq_refl ltac:(discriminate)).
Defined.

(** X23: on completion, an [mcp_tool_call] or [tool_call] item with a
    nonempty string [id] raises when [_short_tool_name] raises (it is
    computed for both item types); otherwise it becomes one tool action
    that is ok iff [status] is not ["failed"] and [error] is falsy, whose
    detail has an [error_message] iff [error] is truthy and a
    [result_summary] iff [_summarize_tool_result] gives one, and whose
    title is [str(name) or "tool"] for a [tool_call] and the short tool
    name otherwise. *)
Theorem codex_tool_item_completed rc item t x :
  por (dget item "type") (dget item "item_type") = JStr t ->
  In t ["mcp_tool_call"; "tool_call"] ->
  dget item "id" = JStr x -> x <> "" ->
  (forall e, Codex._short_tool_name item = Raise e ->
     Codex._translate_item_event rc "item.completed" item = Raise e) /\
  (forall sh, Codex._short_tool_name item = Ok sh ->
   exists ttl d ok,
     Codex._translate_item_event rc "item.completed" item =
       Ok [Codex._action_event completed x tool ttl d (Some ok) None None] /\
     (ok = true <->
        jeq_str (dget item "status") "failed" = false /\ truthy (dget item "error") = false) /\
     dmem d "error_message" = truthy (dget item "error") /\
     dmem d "result_summary" =
       match Codex._summarize_tool_result (dget item "result") with Some _ => true | None => false end /\
     ttl = (if String.eqb t "tool_call"
            then (if truthy (dget item "name") then py_str (dget item "name") else "tool")
            else sh)).
Proof.
  intros Hty Hin Hid Hx.
  assert (Hne := nonempty_str_JStr x Hx).
  split.
  - intros e He; unfold Codex._translate_item_event; cbv zeta; rewrite Hty.
    destruct Hin as [<-|[<-|[]]]; cbn -[Codex._short_tool_name];
      rewrite Hid, Hne; cbn -[Codex._short_tool_name]; rewrite He; reflexivity.
  - intros sh Hs; unfold Codex._translate_item_event; cbv zeta; rewrite Hty.
    destruct Hin as [<-|[<-|[]]];
      cbn -[Codex._short_tool_name Codex._summarize_tool_result Codex.with_arguments];
      rewrite Hid, Hne;
      cbn -[Codex._short_tool_name Codex._summarize_tool_result Codex.with_arguments];
      rewrite Hs;
      cbn -[Codex._short_tool_name Codex._summarize_tool_result Codex.with_arguments];
      do 3 eexists; (split; [reflexivity|]);
      (split; [unfold Codex.is_failed;
               destruct (jeq_str (dget item "status") "failed"), (truthy (dget item "error"));
               cbn; intuition congruence|]);
      (split; [|split; [|reflexivity]]);
      destruct (truthy (dget item "error")), (Codex._summarize_tool_result (dget item "result"));
      unfold Codex.with_arguments; destruct (dmem item "arguments");
      repeat rewrite dmem_dset; reflexivity.
Qed.

Lemma codex_tool_item_completed_witness :
  let item := [("type", JStr "mcp_tool_call"); ("id", JStr "t1"); ("server", JStr "gh");
               ("tool", JStr "search"); ("status", JStr "failed")] in
  exists ttl d ok,
    Codex._translate_item_event id_path "item.completed" item =
      Ok [Codex._action_event completed "t1" tool ttl d (Some ok) None None] /\
    (ok = true <->
       jeq_str (dget item "status") "failed" = false /\ truthy (dget item "error") = false) /\
    dmem d "error_message" = truthy (dget item "error") /\
    dmem d "result_summary" =
      match Codex._summarize_tool_result (dget item "result") with Some _ => true | None => false end /\
    ttl = "gh.search".
Proof.
  cbv zeta.
  exact (proj2 (codex_tool_item_completed id_path
    [("type", JStr "mcp_tool_call"); ("id", JStr "t1"); ("server", JStr "gh");
     ("tool", JStr "search"); ("status", JStr "failed")] "mcp_tool_call" "t1"
    eq_refl ltac:(left; reflexivity) eq_refl ltac:(discriminate)) "gh.search" eq_refl).
Defined.

(** X24: [translate_codex_event] starts a session on [thread.started] exactly
    when [thread_id] is truthy, with [str(thread_id)] as the token value;
    any other string type outside the three item events, and a [None],
    boolean or integer type, gives no event, while a list or dict type
    raises (the set-membership test [etype in {...}] hashes it); an item
    event whose [item] is falsy gives no
    event (it is read as an empty dict), and one whose [item] is truthy but
    not a dict raises. *)
Theorem codex_translate_event_dispatch rc ev ttl :
  (dget ev "type" = JStr "thread.started" ->
   (truthy (dget ev "thread_id") = false -> Codex.translate_codex_event rc ev ttl = Ok []) /\
   (truthy (dget ev "thread_id") = true ->
    Codex.translate_codex_event rc ev ttl =
      Ok [Codex._started_event (mkResumeToken Codex.ENGINE (py_str (dget ev "thread_id"))) ttl])) /\
  (forall e, dget ev "type" = JStr e ->
   ~ In e ["thread.started"; "item.started"; "item.updated"; "item.completed"] ->
   Codex.translate_codex_event rc ev ttl = Ok []) /\
  (match dget ev "type" with JNull | JBool _ | JInt _ => True | _ => False end ->
   Codex.translate_codex_event rc ev ttl = Ok []) /\
  (match dget ev "type" with JArr _ | JObj _ => True | _ => False end ->
   exists msg, Codex.translate_codex_event rc ev ttl = Raise msg) /\
  (forall e, In e ["item.started"; "item.updated"; "item.completed"] ->
   dget ev "type" = JStr e ->
   (truthy (dget ev "item") = false -> Codex.translate_codex_event rc ev ttl = Ok []) /\
   (truthy (dget ev "item") = true -> (forall d, dget ev "item" <> JObj d) ->
    exists msg, Codex.translate_codex_event rc ev ttl = Raise msg)).
Proof.
  unfold Codex.translate_codex_event.
  split; [|split; [|split; [|split]]].
  - intros Ht; rewrite Ht; cbn [jeq_str]; rewrite String.eqb_refl.
    split; intros H; rewrite H; reflexivity.
  - intros e Ht Hn; rewrite Ht; cbn [jeq_str].
    destruct (String.eqb e "thread.started") eqn:E1;
      [apply String.eqb_eq in E1; subst; exfalso; apply Hn; left; reflexivity|].
    destruct (str_in e _) eqn:E2; [|reflexivity].
    apply str_in_In in E2; exfalso; apply Hn; right; exact E2.
  - intros Hn; destruct (dget ev "type"); try destruct Hn; reflexivity.
  - intros Hn; destruct (dget ev "type"); try destruct Hn; eexists; reflexivity.
  - intros e Hin Ht; rewrite Ht; cbn [jeq_str].
    assert (E1 : String.eqb e "thread.started" = false)
      by (destruct Hin as [<-|[<-|[<-|[]]]]; reflexivity).
    assert (E2 : str_in e ["item.started"; "item.updated"; "item.completed"] = true)
      by (apply str_in_In, Hin).
    rewrite E1, E2; unfold Codex.as_item, por.
    split.
    + intros Hi; rewrite Hi; cbn [py_bind].
      unfold Codex._translate_item_event; cbv zeta; reflexivity.
    + intros Hi Hd; rewrite Hi.
      destruct (dget ev "item"); try (eexists; reflexivity).
      exfalso; eapply Hd; reflexivity.
Qed.
